(** * Gamepad tester: input sampling, edge detection and the press log

    A shallow embedding of [src/App.tsx] (the [App] component) and of the
    type declarations it imports ([GamepadState], [ButtonIndex],
    [AxisIndex]).

    How the React component is read as a state machine:
    - the four pieces of state the core uses ([activeGamepadIndex],
      [gamepadState], [inputLog] and the ref [prevButtonsRef]) form the
      record [AppState];
    - a callback ([scanGamepads], the two window listeners, [clearLog])
      mutates the ref at once and *queues* state updates ([Update]); React
      applies the queue in order when the callback has returned
      ([rendered]) and then runs the effects whose dependency
      [activeGamepadIndex] changed ([runEffects]);
    - callbacks run one at a time and the commit of one is complete before
      the next one starts (one animation frame, one event).

    Numbers are IEEE doubles ([PrimFloat.float]), arrays are lists read with
    [!!], an array write past the end extends the array ([js_set]). *)

From Stdlib Require Import Ascii Decimal DecimalString DecimalNat DecimalN PrimFloat Lia.
From stdpp Require Import base list strings gmap sorting.

(** ** Data model *)

(** One entry of [Gamepad.buttons]. *)
Record GamepadButton := {
  pressed : bool;
  value : float;
}.

(** The platform's [Gamepad] object, restricted to the fields the
    component reads. *)
Record Gamepad := {
  gp_id : string;
  gp_connected : bool;
  gp_timestamp : float;
  gp_buttons : list GamepadButton;
  gp_axes : list float;
}.

(** [interface GamepadState]. *)
Record GamepadState := {
  id : string;
  connected : bool;
  timestamp : float;
  buttons : list GamepadButton;
  axes : list float;
}.

(** [enum ButtonIndex] and [enum AxisIndex], with their numeric values. *)
Inductive ButtonIndex :=
  | A | B | X | Y | LB | RB | LT | RT | Back | Start | LS | RS
  | DPadUp | DPadDown | DPadLeft | DPadRight | Home.

Definition ButtonIndex_value (b : ButtonIndex) : nat :=
  match b with
  | A => 0 | B => 1 | X => 2 | Y => 3 | LB => 4 | RB => 5 | LT => 6 | RT => 7
  | Back => 8 | Start => 9 | LS => 10 | RS => 11
  | DPadUp => 12 | DPadDown => 13 | DPadLeft => 14 | DPadRight => 15
  | Home => 16
  end.

Inductive AxisIndex := LX | LY | RX | RY.

Definition AxisIndex_value (a : AxisIndex) : nat :=
  match a with LX => 0 | LY => 1 | RX => 2 | RY => 3 end.

(** [interface LogEntry]. *)
Record LogEntry := {
  log_id : string;
  log_button : string;
  log_time : string;
}.

(** [const BUTTON_MAP: Record<number, string>]. *)
Definition BUTTON_MAP : gmap nat string :=
  list_to_map [
    (0, "A"); (1, "B"); (2, "X"); (3, "Y"); (4, "LB"); (5, "RB");
    (6, "LT"); (7, "RT"); (8, "View"); (9, "Menu");
    (10, "LS (左摇杆)"); (11, "RS (右摇杆)");
    (12, "↑ 上"); (13, "↓ 下"); (14, "← 左"); (15, "→ 右");
    (16, "Xbox"); (17, "Share")
  ].

(** ** JavaScript primitives used by the component *)

(** Template-literal rendering of a non-negative integer. *)
Definition nat_to_string (n : nat) : string :=
  NilEmpty.string_of_uint (Nat.to_uint n).

Definition N_to_string (n : N) : string :=
  NilEmpty.string_of_uint (N.to_uint n).

(** [s.padStart(n, c)] for a one-character filler. *)
Definition padStart (n : nat) (c : ascii) (s : string) : string :=
  Nat.iter (n - String.length s) (String c) s.

(** [a[i] = v] on an array: in range it overwrites, past the end it
    extends. JavaScript leaves holes between the old end and [i]; a hole
    reads as [undefined], which the component only ever negates
    ([!prev[index]]), so a hole is kept as [false]. ([forEach_fills_in_order]
    below shows the component never creates one.) *)
Definition js_set (l : list bool) (i : nat) (v : bool) : list bool :=
  if decide (i < length l) then <[i:=v]> l
  else l ++ replicate (i - length l) false ++ [v].

(** Truthiness of [prev[index]]: [undefined] (out of range) is falsy. *)
Definition truthy (o : option bool) : bool := default false o.

(** [x || 0] on a number read from an array: [undefined], [NaN], [0] and
    [-0] are falsy. *)
Definition or_zero (o : option float) : float :=
  match o with
  | Some x => if (is_nan x || (x =? 0)%float)%bool then 0%float else x
  | None => 0%float
  end.

(** ** The environment of one animation frame *)

(** [const now = new Date()]: the three readings the callback takes. *)
Record DateNow := {
  getTime : N;
  toLocaleTimeString : string;
  getMilliseconds : nat;
}.

(** What the platform answers during one run of [scanGamepads]:
    [navigator.getGamepads()], the clock, and [mathRandom k], the rendering
    in a template literal of the [k]-th call (from 0) of [Math.random()]
    in this run. *)
Record FrameEnv := {
  getGamepads : list (option Gamepad);
  now : DateNow;
  mathRandom : nat → string;
}.

(** ** Sampler *)

Definition mapGamepadToState (gp : Gamepad) : GamepadState := {|
  id := gp_id gp;
  connected := gp_connected gp;
  timestamp := gp_timestamp gp;
  buttons := (λ b, {| pressed := pressed b; value := value b |}) <$> gp_buttons gp;
  axes := gp_axes gp;
|}.

(** ** Edge detector *)

(** [timeString]. *)
Definition timeString (d : DateNow) : string :=
  toLocaleTimeString d +:+ "." +:+ padStart 3 "0"%char (nat_to_string (getMilliseconds d)).

(** [BUTTON_MAP[index] || `Button ${index}`]. *)
Definition btnName (index : nat) : string :=
  match BUTTON_MAP !! index with
  | Some s => if decide (s = "") then "Button " +:+ nat_to_string index else s
  | None => "Button " +:+ nat_to_string index
  end.

(** The object literal pushed on a rising edge; [k] is the number of calls
    of [Math.random()] made before in this run. *)
Definition mkEntry (env : FrameEnv) (k index : nat) : LogEntry := {|
  log_id := N_to_string (getTime (now env)) +:+ "-" +:+ nat_to_string index
            +:+ "-" +:+ mathRandom env k;
  log_button := btnName index;
  log_time := timeString (now env);
|}.

(** The body of the [forEach] callback, on the pair
    ([prevButtonsRef.current], [newLogs]). *)
Definition onButton (env : FrameEnv) (btn : GamepadButton) (index : nat)
    (st : list bool * list LogEntry) : list bool * list LogEntry :=
  let '(prev, newLogs) := st in
  let prev := if decide (length prev ≤ index) then js_set prev index false else prev in
  let newLogs :=
    if (pressed btn && negb (truthy (prev !! index)))%bool
    then newLogs ++ [mkEntry env (length newLogs) index]
    else newLogs in
  (js_set prev index (pressed btn), newLogs).

(** [btns.forEach((btn, index) => ...)], where [index] is the index of the
    head of [btns] in the whole array. *)
Fixpoint forEach (env : FrameEnv) (btns : list GamepadButton) (index : nat)
    (st : list bool * list LogEntry) : list bool * list LogEntry :=
  match btns with
  | [] => st
  | btn :: rest => forEach env rest (S index) (onButton env btn index st)
  end.

(** The edge-detection block of [scanGamepads]: from the tracker, to the
    tracker after the loop and the batch [newLogs]. *)
Definition detectEdges (env : FrameEnv) (prev : list bool)
    (btns : list GamepadButton) : list bool * list LogEntry :=
  forEach env btns 0 (prev, []).

(** ** Device registry: which gamepad to focus on *)

(** [gamepads[i] && gamepads[i]?.connected], returning the device when the
    test succeeds. *)
Definition connectedAt (gamepads : list (option Gamepad)) (i : nat) : option Gamepad :=
  match gamepads !! i with
  | Some (Some gp) => if gp_connected gp then Some gp else None
  | _ => None
  end.

(** The auto-detect [for] loop over the slots from index [i] on; [slots]
    is the part of the array not yet visited. *)
Fixpoint firstConnected (slots : list (option Gamepad)) (i : nat) : option (nat * Gamepad) :=
  match slots with
  | [] => None
  | Some gp :: rest =>
      if gp_connected gp then Some (i, gp) else firstConnected rest (S i)
  | None :: rest => firstConnected rest (S i)
  end.

(** ** React state *)

(** A queued state update. [setInputLog] is given either a value or an
    updater function; a value [v] is the constant updater. *)
Inductive Update :=
  | SetActiveGamepadIndex (v : option nat)
  | SetGamepadState (v : option GamepadState)
  | SetInputLog (f : list LogEntry → list LogEntry).

(** The state of the mounted component. [listeners] records, for every
    pair of window listeners registered so far (they are never removed),
    the value of [activeGamepadIndex] its closures captured. *)
Record AppState := {
  activeGamepadIndex : option nat;
  gamepadState : option GamepadState;
  inputLog : list LogEntry;
  prevButtonsRef : list bool;
  listeners : list (option nat);
}.

(** [new Array(20).fill(false)]. *)
Definition freshTracker : list bool := replicate 20 false.

(** The component after its first render and mount effects. *)
Definition mounted : AppState := {|
  activeGamepadIndex := None;
  gamepadState := None;
  inputLog := [];
  prevButtonsRef := freshTracker;
  listeners := [None];
|}.

Definition with_ref (s : AppState) (prev : list bool) : AppState := {|
  activeGamepadIndex := activeGamepadIndex s;
  gamepadState := gamepadState s;
  inputLog := inputLog s;
  prevButtonsRef := prev;
  listeners := listeners s;
|}.

Definition applyUpdate (s : AppState) (u : Update) : AppState :=
  match u with
  | SetActiveGamepadIndex v => {|
      activeGamepadIndex := v;
      gamepadState := gamepadState s;
      inputLog := inputLog s;
      prevButtonsRef := prevButtonsRef s;
      listeners := listeners s |}
  | SetGamepadState v => {|
      activeGamepadIndex := activeGamepadIndex s;
      gamepadState := v;
      inputLog := inputLog s;
      prevButtonsRef := prevButtonsRef s;
      listeners := listeners s |}
  | SetInputLog f => {|
      activeGamepadIndex := activeGamepadIndex s;
      gamepadState := gamepadState s;
      inputLog := f (inputLog s);
      prevButtonsRef := prevButtonsRef s;
      listeners := listeners s |}
  end.

Definition applyUpdates (s : AppState) (us : list Update) : AppState :=
  foldl applyUpdate s us.

(** The effects with dependency [activeGamepadIndex], run after a render
    in which it changed: the reset effect (new tracker, [setInputLog([])])
    and the effect that registers a new pair of listeners and re-arms the
    frame loop with the new [scanGamepads]. *)
Definition runEffects (before after : AppState) : AppState :=
  if decide (activeGamepadIndex before = activeGamepadIndex after) then after
  else {|
    activeGamepadIndex := activeGamepadIndex after;
    gamepadState := gamepadState after;
    inputLog := [];
    prevButtonsRef := freshTracker;
    listeners := listeners after ++ [activeGamepadIndex after];
  |}.


(** ** The callbacks *)

(** "Determine which gamepad to focus on": [currentGp] after the first
    block of [scanGamepads], and the update the auto-detect loop queues. *)
Definition determineFocus (activeGamepadIndex : option nat)
    (gamepads : list (option Gamepad)) : option Gamepad * list Update :=
  match activeGamepadIndex ≫= connectedAt gamepads with
  | Some gp => (Some gp, [])
  | None =>
      match firstConnected gamepads 0 with
      | Some (i, gp) => (Some gp, [SetActiveGamepadIndex (Some i)])
      | None => (None, [])
      end
  end.

(** [scanGamepads], closed over [activeGamepadIndex], on the tracker
    [prev]: the tracker it leaves and the updates it queues, in order.
    (It ends by re-arming the frame loop, which is the next
    [AnimationFrame] event below.) *)
Definition scanGamepads (activeGamepadIndex : option nat) (prev : list bool)
    (env : FrameEnv) : list bool * list Update :=
  let '(currentGp, selected) := determineFocus activeGamepadIndex (getGamepads env) in
  match currentGp with
  | Some gp =>
      let '(prev', newLogs) := detectEdges env prev (gp_buttons gp) in
      (prev',
       selected ++ [SetGamepadState (Some (mapGamepadToState gp))] ++
       (if decide (0 < length newLogs)
        then [SetInputLog (λ prev, take 50 (newLogs ++ prev))]
        else []))
  | None =>
      (prev,
       selected ++ [SetGamepadState None] ++
       (if decide (activeGamepadIndex = None) then []
        else [SetActiveGamepadIndex None]))
  end.

(** The [gamepadconnected] listener whose closure captured [captured]. *)
Definition onGamepadConnected (captured : option nat) (index : nat) : list Update :=
  if decide (captured = None) then [SetActiveGamepadIndex (Some index)] else [].

(** The [gamepaddisconnected] listener whose closure captured [captured]. *)
Definition onGamepadDisconnected (captured : option nat) (index : nat) : list Update :=
  if decide (captured = Some index)
  then [SetActiveGamepadIndex None; SetGamepadState None] else [].

Definition clearLog : list Update := [SetInputLog (λ _, [])].

(** ** The component as a transition system *)

Inductive Event :=
  | AnimationFrame (env : FrameEnv)
  | GamepadConnected (index : nat)
  | GamepadDisconnected (index : nat)
  | ClearLogClick.

Definition dispatch (s : AppState) (ev : Event) : list bool * list Update :=
  match ev with
  | AnimationFrame env => scanGamepads (activeGamepadIndex s) (prevButtonsRef s) env
  | GamepadConnected i =>
      (prevButtonsRef s, listeners s ≫= λ captured, onGamepadConnected captured i)
  | GamepadDisconnected i =>
      (prevButtonsRef s, listeners s ≫= λ captured, onGamepadDisconnected captured i)
  | ClearLogClick => (prevButtonsRef s, clearLog)
  end.

(** The state React renders when the callback has returned: the ref as the
    callback left it, the queued updates applied in order. *)
Definition rendered (s : AppState) (ev : Event) : AppState :=
  let '(prev, us) := dispatch s ev in applyUpdates (with_ref s prev) us.

(** One callback, the render that follows it, and the effects of that
    render. *)
Definition step (s : AppState) (ev : Event) : AppState :=
  runEffects s (rendered s ev).

Definition run (s : AppState) (evs : list Event) : AppState := foldl step s evs.

(** ** The sticks-and-triggers panel *)

Inductive JsError := TypeError.

(** The outcome of evaluating an expression: a value or a thrown error. *)
Inductive Completion (T : Type) :=
  | Normal (v : T)
  | Throw (e : JsError).
Arguments Normal {T} v.
Arguments Throw {T} e.

Definition cbind {T U} (c : Completion T) (k : T → Completion U) : Completion U :=
  match c with
  | Normal v => k v
  | Throw e => Throw e
  end.

Notation "x ←! c ; k" := (cbind c (λ x, k))
  (at level 100, c at next level, right associativity).

(** [gamepadState.buttons[b].value]: reading [.value] of [undefined]
    throws. *)
Definition buttonValue (gs : GamepadState) (b : ButtonIndex) : Completion float :=
  match buttons gs !! ButtonIndex_value b with
  | Some btn => Normal (value btn)
  | None => Throw TypeError
  end.

(** [gamepadState.axes[a] || 0]. *)
Definition axisValue (gs : GamepadState) (a : AxisIndex) : float :=
  or_zero (axes gs !! AxisIndex_value a).

(** The numbers the panel shows. *)
Record Panel := {
  leftStick : float * float;
  rightStick : float * float;
  ltTravel : float;
  rtTravel : float;
}.

(** The body of the card: the two [JoystickCircle] props, then the LT and
    RT travel ([value * 100]); [None] is the placeholder shown without a
    device. *)
Definition renderPanel (gamepadState : option GamepadState) : Completion (option Panel) :=
  match gamepadState with
  | None => Normal None
  | Some gs =>
      let left := (axisValue gs LX, axisValue gs LY) in
      let right := (axisValue gs RX, axisValue gs RY) in
      lt ←! buttonValue gs LT;
      rt ←! buttonValue gs RT;
      Normal (Some {|
        leftStick := left;
        rightStick := right;
        ltTravel := (lt * 100)%float;
        rtTravel := (rt * 100)%float;
      |})
  end.

(** ** Definitions used to state the properties *)

(** The rising-edge condition as the specification words it: pressed now,
    prior value false, where an index the tracker has no entry for counts
    as false. *)
Definition risingEdge (prev : list bool) (btn : GamepadButton) (index : nat) : bool :=
  pressed btn && negb (truthy (prev !! index)).

(** The indices of [btns] (numbered from [index]) that meet the condition
    against the tracker as it was *before* the frame. *)
Fixpoint risingFrom (prev : list bool) (btns : list GamepadButton) (index : nat) : list nat :=
  match btns with
  | [] => []
  | btn :: rest =>
      if risingEdge prev btn index
      then index :: risingFrom prev rest (S index)
      else risingFrom prev rest (S index)
  end.

Definition risingIndices (prev : list bool) (btns : list GamepadButton) : list nat :=
  risingFrom prev btns 0.

(** The device a frame samples and the batch that frame builds, read off
    [scanGamepads]. *)
Definition currentGp (s : AppState) (env : FrameEnv) : option Gamepad :=
  (determineFocus (activeGamepadIndex s) (getGamepads env)).1.

Definition newLogs (s : AppState) (env : FrameEnv) : list LogEntry :=
  match currentGp s env with
  | Some gp => (detectEdges env (prevButtonsRef s) (gp_buttons gp)).2
  | None => []
  end.

Definition isLogUpdate (u : Update) : bool :=
  match u with SetInputLog _ => true | _ => false end.

(** No button of the sampled device goes from not-pressed to pressed in the
    frame [env]: each one that is pressed was already recorded as pressed. *)
Definition noRisingEdge (s : AppState) (env : FrameEnv) : Prop :=
  ∀ gp i btn,
    currentGp s env = Some gp → gp_buttons gp !! i = Some btn →
    pressed btn = true → truthy (prevButtonsRef s !! i) = true.

(** Every entry emitted over the frames [envs] of a session whose active
    slot stays connected, newest first, on top of [acc]: the log as it
    would be without a capacity. *)
Fixpoint sessionHistory (active : option nat) (prev : list bool)
    (envs : list FrameEnv) (acc : list LogEntry) : list LogEntry :=
  match envs with
  | [] => acc
  | env :: rest =>
      match active ≫= connectedAt (getGamepads env) with
      | Some gp =>
          let '(prev', batch) := detectEdges env prev (gp_buttons gp) in
          sessionHistory active prev' rest (batch ++ acc)
      | None => acc
      end
  end.

(** The active slot holds a connected device in the frame [env]. *)
Definition stillConnected (s : AppState) (env : FrameEnv) : Prop :=
  is_Some (activeGamepadIndex s ≫= connectedAt (getGamepads env)).

#[global] Instance stillConnected_dec s env : Decision (stillConnected s env).
Proof. unfold stillConnected. apply _. Defined.

(** ** Concrete devices and frames *)

(** A connected device whose buttons have the given pressed flags. *)
Definition pad (flags : list bool) (sticks : list float) : Gamepad := {|
  gp_id := "Xbox Wireless Controller";
  gp_connected := true;
  gp_timestamp := 0%float;
  gp_buttons := (λ p : bool, {| pressed := p; value := if p then 1%float else 0%float |}) <$> flags;
  gp_axes := sticks;
|}.

(** A frame at clock reading [t] over the slots [slots], every random draw
    rendering as [r]. *)
Definition frameAt (t : N) (r : string) (slots : list (option Gamepad)) : FrameEnv := {|
  getGamepads := slots;
  now := {| getTime := t; toLocaleTimeString := "12:00:00";
            getMilliseconds := N.to_nat (t mod 1000) |};
  mathRandom := λ _, r;
|}.

(** A two-button device in slot 0 with the given flags. *)
Definition twoButtons (t : N) (b0 b1 : bool) : FrameEnv :=
  frameAt t "0.5" [Some (pad [b0; b1] [])].

(** [n] frames, 16 ms apart from clock reading [t]: buttons 0 and 1 are
    pressed in turn, so that every frame has exactly one rising edge. *)
Fixpoint alternating (n : nat) (t : N) (b : bool) : list FrameEnv :=
  match n with
  | 0 => []
  | S n => twoButtons t b (negb b) :: alternating n (t + 16) (negb b)
  end.

(** A session on slot 0, after the frame that selected it. *)
Definition session0 : AppState :=
  step mounted (AnimationFrame (twoButtons 1000 false false)).

(** A state in which button 0 is held and has been logged, and the next
    frame, in which it is still held. *)
Definition holding0 : AppState :=
  step session0 (AnimationFrame (twoButtons 1016 true false)).

Definition stillHolding0 : FrameEnv := twoButtons 1032 true false.

(** A connected device with the 17 buttons and 4 axes of the standard
    mapping, all released and centred but button 0, which has the given
    flag. *)
Definition standardPad (b0 : bool) : Gamepad :=
  pad (b0 :: replicate 16 false) (replicate 4 0%float).

(** The frames of a press, a release and a second press of button 0 of a
    standard device in slot 0, taken at one clock reading (a clock coarser
    than the frame rate), the random generator returning the same number
    at both presses. *)
Definition sameTick : list Event := [
  AnimationFrame (frameAt 1000 "0.5" [Some (standardPad false)]);
  AnimationFrame (frameAt 1000 "0.5" [Some (standardPad true)]);
  AnimationFrame (frameAt 1000 "0.5" [Some (standardPad false)]);
  AnimationFrame (frameAt 1000 "0.5" [Some (standardPad true)])
].

(** The panel renders in the state [s] without throwing. *)
Definition panelRenders (s : AppState) : bool :=
  match renderPanel (gamepadState s) with
  | Normal _ => true
  | Throw _ => false
  end.

(** A connected four-button, two-axis device. *)
Definition fourButtonPad : Gamepad :=
  pad [false; true; false; false] [0.25%float; (-1)%float].

(** A frame at clock reading [t] in which slot 0 is gone and slot 1 holds
    a device whose button 0 is held. *)
Definition switchToSlot1 (t : N) : FrameEnv :=
  frameAt t "0.5" [None; Some (pad [true; false] [])].

(** ** The rest of the view *)

(** [JoystickCircle]: where the dot of a stick is drawn, [cx] and [cy]. *)
Definition JoystickCircle (x y : float) : float * float :=
  ((50 + x * 40)%float, (50 + y * 40)%float).

(** [s.split(' ')[0]]: the part of [s] before its first space, all of [s]
    when it has none. *)
Fixpoint beforeSpace (s : string) : string :=
  match s with
  | EmptyString => EmptyString
  | String c rest => if decide (c = " "%char) then EmptyString else String c (beforeSpace rest)
  end.

(** The time shown in a row of the log: [log.time.split(' ')[0]]. *)
Definition shownTime (e : LogEntry) : string := beforeSpace (log_time e).

Fixpoint hasSpace (s : string) : bool :=
  match s with
  | EmptyString => false
  | String c rest => bool_decide (c = " "%char) || hasSpace rest
  end.

(** The slot [a] (or none) was the active one after some prefix of the
    events [evs] that followed the mount. *)
Definition wasActive (evs : list Event) (a : option nat) : Prop :=
  ∃ evs1 evs2, evs = evs1 ++ evs2 ∧ activeGamepadIndex (run mounted evs1) = a.

(** The clock readings ([now.getTime()]) of the frames among the events
    [evs], in order. *)
Definition frameTimes (evs : list Event) : list N :=
  evs ≫= λ ev,
    match ev with
    | AnimationFrame env => [getTime (now env)]
    | _ => []
    end.

(** * Proofs *)

(** ** Array writes *)

Lemma js_set_length l i v : length (js_set l i v) = length l `max` S i.
Proof.
  unfold js_set. case_decide.
  - rewrite length_insert. lia.
  - rewrite !length_app, length_replicate. simpl. lia.
Qed.

Lemma js_set_lookup_eq l i v : js_set l i v !! i = Some v.
Proof.
  unfold js_set. case_decide.
  - by apply list_lookup_insert_eq.
  - rewrite lookup_app_r by lia.
    rewrite lookup_app_r by (rewrite length_replicate; lia).
    rewrite length_replicate. by replace (i - length l - (i - length l)) with 0 by lia.
Qed.

Lemma js_set_lookup_lt l i j v :
  j < length l → j ≠ i → js_set l i v !! j = l !! j.
Proof.
  intros Hj Hne. unfold js_set. case_decide.
  - by apply list_lookup_insert_ne.
  - by rewrite lookup_app_l.
Qed.

Lemma js_set_truthy_gt l i j v :
  i < j → truthy (js_set l i v !! j) = truthy (l !! j).
Proof.
  intros Hij. unfold js_set. case_decide.
  - rewrite list_lookup_insert_ne by lia. done.
  - rewrite (lookup_ge_None_2 l j) by lia.
    rewrite lookup_ge_None_2; [done|].
    rewrite !length_app, length_replicate. simpl. lia.
Qed.

(** A write at most one past the end never leaves a hole. *)
Lemma js_set_in_order l i v :
  i ≤ length l → js_set l i v = take i l ++ v :: drop (S i) l.
Proof.
  intros Hi. unfold js_set. case_decide.
  - by apply insert_take_drop.
  - replace (i - length l) with 0 by lia. simpl.
    rewrite take_ge by lia. rewrite drop_ge by lia. done.
Qed.

(** ** The edge-detection loop *)

Lemma risingFrom_ext p1 p2 btns index :
  (∀ j, index ≤ j → truthy (p1 !! j) = truthy (p2 !! j)) →
  risingFrom p1 btns index = risingFrom p2 btns index.
Proof.
  revert index. induction btns as [|btn rest IH]; intros index Hagree; [done|].
  simpl. unfold risingEdge. rewrite (Hagree index) by lia.
  rewrite (IH (S index)) by (intros j Hj; apply Hagree; lia). done.
Qed.

Lemma elem_of_risingFrom prev btns index i :
  i ∈ risingFrom prev btns index ↔
  index ≤ i ∧ ∃ btn, btns !! (i - index) = Some btn ∧
                     pressed btn = true ∧ truthy (prev !! i) = false.
Proof.
  revert index. induction btns as [|btn rest IH]; intros index; simpl.
  - split; [by intros ?%elem_of_nil | by intros (_ & ? & ? & _)].
  - assert (i ∈ risingFrom prev rest (S index) ↔
            index < i ∧ ∃ b, (btn :: rest) !! (i - index) = Some b ∧
                             pressed b = true ∧ truthy (prev !! i) = false) as Htail.
    { rewrite IH. split.
      - intros (Hle & b & Hb & Hp). split; [lia|]. exists b. split; [|done].
        replace (i - index) with (S (i - S index)) by lia. done.
      - intros (Hlt & b & Hb & Hp). split; [lia|]. exists b. split; [|done].
        replace (i - index) with (S (i - S index)) in Hb by lia. done. }
    unfold risingEdge.
    destruct (pressed btn) eqn:Hp, (truthy (prev !! index)) eqn:Ht; simpl;
      rewrite ?elem_of_cons, Htail.
    all: split.
    all: try (intros (Hlt & b & Hb & Hpb & Htb); split; [lia|]; by exists b).
    all: try (intros [-> | (Hlt & b & Hb & Hpb & Htb)];
              [ split; [lia|]; exists btn; by rewrite Nat.sub_diag
              | split; [lia|]; by exists b ]).
    all: intros (Hle & b & Hb & Hpb & Htb).
    all: destruct (decide (i = index)) as [-> | Hne];
      [ rewrite Nat.sub_diag in Hb; simplify_eq/=; try congruence; by left
      | try right; split; [lia|]; by exists b ].
Qed.

Lemma risingFrom_sorted prev btns index :
  StronglySorted lt (risingFrom prev btns index).
Proof.
  revert index. induction btns as [|btn rest IH]; intros index; simpl.
  - constructor.
  - destruct (risingEdge prev btn index); [|apply IH].
    constructor; [apply IH|].
    apply Forall_forall. intros j Hj%elem_of_risingFrom. lia.
Qed.

(** The batch built by the loop: one entry for each rising index, in
    visiting order, the [k]-th one made with the [k]-th random draw. The
    writes of the loop never disturb a later read: the callback reads
    [prev[index]] before it writes it, and writes no index above. *)
Lemma forEach_batch env btns index prev logs :
  (forEach env btns index (prev, logs)).2 =
  logs ++ imap (λ k i, mkEntry env (length logs + k) i) (risingFrom prev btns index).
Proof.
  revert index prev logs. induction btns as [|btn rest IH]; intros index prev logs.
  - simpl. by rewrite app_nil_r.
  - cbn [forEach risingFrom]. unfold onButton.
    set (prev0 := if decide (length prev ≤ index)
                  then js_set prev index false else prev).
    assert (truthy (prev0 !! index) = truthy (prev !! index)) as Hread.
    { unfold prev0. case_decide; [|done].
      rewrite js_set_lookup_eq, lookup_ge_None_2 by lia. done. }
    assert (risingFrom (js_set prev0 index (pressed btn)) rest (S index)
            = risingFrom prev rest (S index)) as Hrest.
    { apply risingFrom_ext. intros j Hj. rewrite js_set_truthy_gt by lia.
      unfold prev0. case_decide; [|done]. by rewrite js_set_truthy_gt by lia. }
    rewrite IH, Hrest, Hread. unfold risingEdge.
    destruct (pressed btn && negb (truthy (prev !! index)))%bool; [|done].
    rewrite <- app_assoc. f_equal. simpl. rewrite Nat.add_0_r. f_equal.
    apply imap_ext. intros k i _. simpl. rewrite length_app. simpl.
    f_equal. lia.
Qed.

(** The tracker left by the loop, in closed form: the pressed flags of the
    visited buttons overwrite the tracker from [index] on, the rest is
    kept. The array is filled in index order, so no write lands beyond
    one past the end of the tracker. *)
Lemma forEach_fills_in_order env btns index prev logs :
  index ≤ length prev →
  (forEach env btns index (prev, logs)).1 =
  take index prev ++ (pressed <$> btns) ++ drop (index + length btns) prev.
Proof.
  revert index prev logs. induction btns as [|btn rest IH]; intros index prev logs Hle.
  - simpl. rewrite Nat.add_0_r. by rewrite take_drop.
  - cbn [forEach]. unfold onButton.
    set (prev0 := if decide (length prev ≤ index)
                  then js_set prev index false else prev).
    assert (js_set prev0 index (pressed btn)
            = take index prev ++ pressed btn :: drop (S index) prev) as Hw.
    { unfold prev0. case_decide.
      - rewrite (js_set_in_order prev) by lia.
        rewrite js_set_in_order
          by (rewrite length_app, length_take; simpl; lia).
        rewrite take_app_le by (rewrite length_take; lia).
        rewrite take_take, Nat.min_id.
        rewrite (drop_ge prev) by lia.
        rewrite drop_ge by (rewrite length_app, length_take; simpl; lia). done.
      - by rewrite js_set_in_order by lia. }
    rewrite IH; rewrite Hw.
    2: { rewrite length_app, length_take. simpl. lia. }
    rewrite fmap_cons.
    replace (take (S index) (take index prev ++ pressed btn :: drop (S index) prev))
      with (take index prev ++ [pressed btn]).
    2: { rewrite take_app_ge by (rewrite length_take; lia).
         rewrite length_take. replace (S index - index `min` length prev) with 1 by lia.
         done. }
    replace (drop (S index + length rest)
               (take index prev ++ pressed btn :: drop (S index) prev))
      with (drop (index + length (btn :: rest)) prev).
    2: { rewrite drop_app_ge by (rewrite length_take; lia).
         rewrite length_take.
         replace (S index + length rest - index `min` length prev)
           with (S (length rest)) by lia.
         simpl. rewrite drop_drop. f_equal. lia. }
    by rewrite <- app_assoc.
Qed.

Lemma detectEdges_batch env prev btns :
  (detectEdges env prev btns).2 = imap (mkEntry env) (risingIndices prev btns).
Proof. unfold detectEdges. by rewrite forEach_batch. Qed.

Lemma detectEdges_tracker env prev btns :
  (detectEdges env prev btns).1 = (pressed <$> btns) ++ drop (length btns) prev.
Proof. unfold detectEdges. by rewrite forEach_fills_in_order by lia. Qed.

Lemma elem_of_risingIndices prev btns i :
  i ∈ risingIndices prev btns ↔
  pressed <$> btns !! i = Some true ∧ truthy (prev !! i) = false.
Proof.
  unfold risingIndices. rewrite elem_of_risingFrom, Nat.sub_0_r. split.
  - intros (_ & btn & -> & Hp & ?). simpl. by rewrite Hp.
  - intros [Hb ?]. split; [lia|].
    destruct (btns !! i) as [btn|]; simplify_eq/=. by exists btn.
Qed.

(** ** Which slot a frame focuses on *)

Lemma firstConnected_Some slots off i gp :
  firstConnected slots off = Some (i, gp) ↔
  off ≤ i ∧ connectedAt slots (i - off) = Some gp ∧
  ∀ j, j < i - off → connectedAt slots j = None.
Proof.
  revert off. induction slots as [|slot rest IH]; intros off.
  - simpl. split; [done|]. by intros (_ & ? & _).
  - assert (firstConnected rest (S off) = Some (i, gp) ↔
            off < i ∧ connectedAt (slot :: rest) (i - off) = Some gp ∧
            ∀ j, j < i - S off → connectedAt rest j = None) as Htail.
    { rewrite IH. unfold connectedAt at 1 3. split.
      - intros (? & Hc & Hmin). split; [lia|]. split; [|done].
        replace (i - off) with (S (i - S off)) by lia. done.
      - intros (? & Hc & Hmin). split; [lia|]. split; [|done].
        replace (i - off) with (S (i - S off)) in Hc by lia. done. }
    assert (connectedAt (slot :: rest) 0 = None →
            firstConnected (slot :: rest) off = firstConnected rest (S off)) as Hskip.
    { unfold connectedAt. simpl. destruct slot as [g|]; [|done].
      by destruct (gp_connected g). }
    destruct (connectedAt (slot :: rest) 0) as [g|] eqn:Hhead.
    + assert (firstConnected (slot :: rest) off = Some (off, g)) as ->.
      { unfold connectedAt in Hhead. simpl in *. destruct slot as [g'|]; [|done].
        destruct (gp_connected g'); by simplify_eq. }
      split.
      * intros [= <- <-]. rewrite Nat.sub_diag. split; [lia|]. split; [done|]. lia.
      * intros (Hle & Hc & Hmin).
        destruct (decide (i = off)) as [-> | Hne].
        { rewrite Nat.sub_diag in Hc. congruence. }
        specialize (Hmin 0 ltac:(lia)). congruence.
    + rewrite (Hskip eq_refl), Htail. split.
      * intros (? & Hc & Hmin). split; [lia|]. split; [done|].
        intros [|j] Hj; [done|]. apply (Hmin j). lia.
      * intros (Hle & Hc & Hmin).
        destruct (decide (i = off)) as [-> | Hne].
        { rewrite Nat.sub_diag in Hc. congruence. }
        split; [lia|]. split; [done|].
        intros j Hj. apply (Hmin (S j)). lia.
Qed.

Lemma firstConnected_None slots off :
  firstConnected slots off = None ↔ ∀ j, connectedAt slots j = None.
Proof.
  revert off. induction slots as [|slot rest IH]; intros off.
  - simpl. split; [|done]. intros _ j. unfold connectedAt. by rewrite lookup_nil.
  - simpl. destruct slot as [g|]; [destruct (gp_connected g) eqn:Hconn|].
    + split; [done|]. intros Hall. specialize (Hall 0).
      unfold connectedAt in Hall. simpl in Hall. by rewrite Hconn in Hall.
    + rewrite IH. split.
      * intros Hall [|j]; [unfold connectedAt; simpl; by rewrite Hconn | apply Hall].
      * intros Hall j. apply (Hall (S j)).
    + rewrite IH. split.
      * intros Hall [|j]; [done | apply Hall].
      * intros Hall j. apply (Hall (S j)).
Qed.

Lemma activeGamepadIndex_applyUpdates_other us s :
  Forall (λ u, match u with SetActiveGamepadIndex _ => False | _ => True end) us →
  activeGamepadIndex (applyUpdates s us) = activeGamepadIndex s.
Proof.
  revert s. induction us as [|u us IH]; intros s Hus; [done|].
  inversion_clear Hus as [|? ? Hu Hrest]. simpl. rewrite IH by done. by destruct u.
Qed.

(** ** One animation frame, field by field *)

Lemma determineFocus_selected active gamepads :
  (determineFocus active gamepads).2 = [] ∨
  ∃ i, (determineFocus active gamepads).2 = [SetActiveGamepadIndex (Some i)].
Proof.
  unfold determineFocus.
  destruct (active ≫= connectedAt gamepads); [by left|].
  destruct (firstConnected gamepads 0) as [[i gp]|]; [right; by exists i | by left].
Qed.

Lemma inputLog_applyUpdate_other s u :
  isLogUpdate u = false → inputLog (applyUpdate s u) = inputLog s.
Proof. by destruct u. Qed.

Lemma inputLog_applyUpdates_other us s :
  Forall (λ u, isLogUpdate u = false) us → inputLog (applyUpdates s us) = inputLog s.
Proof.
  revert s. induction us as [|u us IH]; intros s Hus; [done|].
  inversion_clear Hus as [|? ? Hu Hrest]. simpl.
  by rewrite IH, inputLog_applyUpdate_other.
Qed.

Lemma prevButtonsRef_applyUpdates us s :
  prevButtonsRef (applyUpdates s us) = prevButtonsRef s.
Proof.
  revert s. induction us as [|u us IH]; intros s; [done|].
  simpl. rewrite IH. by destruct u.
Qed.

(** The cases of one run of [scanGamepads]: whether the focus block
    queued a selection, whether a device is sampled, and the pair the
    loop returns. *)
Ltac scan_cases s env :=
  destruct (determineFocus_selected (activeGamepadIndex s) (getGamepads env))
    as [? | [? ?]];
  destruct (determineFocus _ _) as [[?|] ?]; simpl in *; subst;
  try (destruct (detectEdges _ _ _) as [? ?]; simpl).

Section Frame.
Context (s : AppState) (env : FrameEnv).

Lemma inputLog_rendered_frame :
  inputLog (rendered s (AnimationFrame env)) =
  if decide (0 < length (newLogs s env))
  then take 50 (newLogs s env ++ inputLog s) else inputLog s.
Proof.
  unfold rendered, newLogs, currentGp, dispatch, scanGamepads.
  scan_cases s env; repeat case_decide; simpl; try done; try lia.
Qed.

Lemma prevButtonsRef_rendered_frame :
  prevButtonsRef (rendered s (AnimationFrame env)) =
  match currentGp s env with
  | Some gp => (detectEdges env (prevButtonsRef s) (gp_buttons gp)).1
  | None => prevButtonsRef s
  end.
Proof.
  unfold rendered, currentGp, dispatch, scanGamepads.
  destruct (determineFocus _ _) as [[gp|] selected]; simpl.
  - destruct (detectEdges _ _ _) as [prev' batch].
    by rewrite prevButtonsRef_applyUpdates.
  - by rewrite prevButtonsRef_applyUpdates.
Qed.

Lemma activeGamepadIndex_rendered_frame :
  activeGamepadIndex (rendered s (AnimationFrame env)) =
  match activeGamepadIndex s ≫= connectedAt (getGamepads env) with
  | Some _ => activeGamepadIndex s
  | None => fst <$> firstConnected (getGamepads env) 0
  end.
Proof.
  unfold rendered, dispatch, scanGamepads, determineFocus.
  destruct (activeGamepadIndex s ≫= connectedAt (getGamepads env)) as [gp|] eqn:Hkeep.
  - destruct (detectEdges _ _ _) as [prev' batch]. simpl.
    rewrite activeGamepadIndex_applyUpdates_other; [done|].
    case_decide; repeat constructor.
  - destruct (firstConnected (getGamepads env) 0) as [[i gp]|].
    + destruct (detectEdges _ _ _) as [prev' batch]. simpl.
      rewrite activeGamepadIndex_applyUpdates_other; [done|].
      case_decide; repeat constructor.
    + simpl. by case_decide.
Qed.

Lemma currentGp_rendered_frame :
  activeGamepadIndex (rendered s (AnimationFrame env)) ≫= connectedAt (getGamepads env)
  = currentGp s env.
Proof.
  rewrite activeGamepadIndex_rendered_frame. unfold currentGp, determineFocus.
  destruct (activeGamepadIndex s ≫= connectedAt (getGamepads env)) as [gp|] eqn:Hkeep;
    [done|].
  destruct (firstConnected (getGamepads env) 0) as [[i gp]|] eqn:Hfirst; [|done].
  simpl. apply firstConnected_Some in Hfirst as (_ & Hc & _).
  by rewrite Nat.sub_0_r in Hc.
Qed.

Lemma gamepadState_rendered_frame :
  gamepadState (rendered s (AnimationFrame env)) = mapGamepadToState <$> currentGp s env.
Proof.
  unfold rendered, currentGp, dispatch, scanGamepads.
  scan_cases s env; repeat case_decide; done.
Qed.

End Frame.

Lemma activeGamepadIndex_runEffects before after :
  activeGamepadIndex (runEffects before after) = activeGamepadIndex after.
Proof. unfold runEffects. by case_decide. Qed.

Lemma gamepadState_runEffects before after :
  gamepadState (runEffects before after) = gamepadState after.
Proof. unfold runEffects. by case_decide. Qed.

(** C4. Active-slot selection in a frame over the slots [getGamepads env]:
    a previous slot that still holds a connected device is kept; otherwise
    the new active slot is the lowest index holding a connected device, and
    none when no slot does. Hence the active slot the frame reports holds a
    connected device of that frame's slot list, and the snapshot it
    publishes is the sample of that device. *)
Theorem active_slot_selection s env :
  let gamepads := getGamepads env in
  let s' := step s (AnimationFrame env) in
  (∀ a, activeGamepadIndex s = Some a → is_Some (connectedAt gamepads a) →
        activeGamepadIndex s' = Some a) ∧
  (activeGamepadIndex s ≫= connectedAt gamepads = None →
   ∀ i, activeGamepadIndex s' = Some i ↔
        is_Some (connectedAt gamepads i) ∧ ∀ j, j < i → connectedAt gamepads j = None) ∧
  (activeGamepadIndex s ≫= connectedAt gamepads = None →
   (∀ i, connectedAt gamepads i = None) → activeGamepadIndex s' = None) ∧
  (∀ i, activeGamepadIndex s' = Some i → is_Some (connectedAt gamepads i)) ∧
  gamepadState s' = mapGamepadToState <$> (activeGamepadIndex s' ≫= connectedAt gamepads).
Proof.
  cbv zeta. unfold step.
  rewrite gamepadState_runEffects, activeGamepadIndex_runEffects.
  rewrite gamepadState_rendered_frame, currentGp_rendered_frame.
  rewrite activeGamepadIndex_rendered_frame.
  set (gamepads := getGamepads env).
  assert (∀ i, fst <$> firstConnected gamepads 0 = Some i ↔
               is_Some (connectedAt gamepads i) ∧
               ∀ j, j < i → connectedAt gamepads j = None) as Hlowest.
  { intros i. split.
    - destruct (firstConnected gamepads 0) as [[i' gp]|] eqn:Hfirst; [|done].
      intros [= ->]. apply firstConnected_Some in Hfirst as (_ & Hc & Hmin).
      rewrite Nat.sub_0_r in Hc, Hmin. by rewrite Hc.
    - intros [[gp Hc] Hmin].
      assert (firstConnected gamepads 0 = Some (i, gp)) as ->; [|done].
      apply firstConnected_Some. rewrite Nat.sub_0_r. split; [lia|]. done. }
  split; [|split; [|split; [|split]]].
  - intros a Ha [gp Hgp]. rewrite Ha. simpl. by rewrite Hgp.
  - intros ->. apply Hlowest.
  - intros -> Hnone. by rewrite (proj2 (firstConnected_None gamepads 0) Hnone).
  - intros i.
    destruct (activeGamepadIndex s ≫= connectedAt gamepads) as [gp|] eqn:Hkeep.
    + intros Hi. rewrite Hi in Hkeep. simpl in Hkeep. by rewrite Hkeep.
    + intros Hi%Hlowest. apply Hi.
  - done.
Qed.

(** ** The edge detector *)

Lemma risingIndices_NoDup prev btns : NoDup (risingIndices prev btns).
Proof.
  unfold risingIndices. generalize 0 as index.
  induction btns as [|btn rest IH]; intros index; simpl; [constructor|].
  destruct (risingEdge prev btn index); [|apply IH].
  constructor; [|apply IH]. intros Hin%elem_of_risingFrom. lia.
Qed.

(** C1. In every frame the batch holds exactly one entry per index [i] whose
    button is pressed in the current snapshot while the tracker's prior
    value for [i] is false, and none for any other index. Over two
    consecutive frames this is the false-to-true transition: an index of the
    first snapshot gets an entry in the second frame if and only if it was
    not pressed in the first and is pressed in the second. *)
Theorem rising_edge_iff env prev btns :
  ∃ idxs : list nat,
    (detectEdges env prev btns).2 = imap (mkEntry env) idxs ∧
    NoDup idxs ∧
    (∀ i, i ∈ idxs ↔
          pressed <$> btns !! i = Some true ∧ truthy (prev !! i) = false) ∧
    ∀ env' btns', ∃ idxs' : list nat,
      (detectEdges env' (detectEdges env prev btns).1 btns').2
        = imap (mkEntry env') idxs' ∧
      NoDup idxs' ∧
      ∀ i, i < length btns →
           (i ∈ idxs' ↔ pressed <$> btns !! i = Some false ∧
                        pressed <$> btns' !! i = Some true).
Proof.
  exists (risingIndices prev btns).
  split; [apply detectEdges_batch|]. split; [apply risingIndices_NoDup|].
  split; [apply elem_of_risingIndices|].
  intros env' btns'. exists (risingIndices (detectEdges env prev btns).1 btns').
  split; [apply detectEdges_batch|]. split; [apply risingIndices_NoDup|].
  intros i Hi. rewrite elem_of_risingIndices, detectEdges_tracker.
  rewrite lookup_app_l by (by rewrite length_fmap).
  rewrite list_lookup_fmap.
  destruct (lookup_lt_is_Some_2 btns i Hi) as [btn ->]. simpl.
  destruct (pressed btn); simpl; split; intros [? ?]; by simplify_eq.
Qed.

(** C6. After the loop has run over a snapshot, the tracker holds the
    pressed flag of every button of the snapshot (a released button is
    recorded as false and gets no entry), is unchanged above the snapshot's
    button count, and has grown to cover the snapshot when it was shorter;
    an index the tracker had no entry for is judged as previously false. *)
Theorem tracker_follows_snapshot env prev btns :
  let prev' := (detectEdges env prev btns).1 in
  (∀ i btn, btns !! i = Some btn → prev' !! i = Some (pressed btn)) ∧
  (∀ i, length btns ≤ i → prev' !! i = prev !! i) ∧
  length prev' = length prev `max` length btns ∧
  ∃ idxs : list nat,
    (detectEdges env prev btns).2 = imap (mkEntry env) idxs ∧
    (∀ i, pressed <$> btns !! i = Some false → i ∉ idxs) ∧
    (∀ i, prev !! i = None → (i ∈ idxs ↔ pressed <$> btns !! i = Some true)).
Proof.
  cbv zeta. rewrite detectEdges_tracker. split; [|split; [|split]].
  - intros i btn Hi. rewrite lookup_app_l
      by (rewrite length_fmap; by eapply lookup_lt_Some).
    by rewrite list_lookup_fmap, Hi.
  - intros i Hi. rewrite lookup_app_r by (by rewrite length_fmap).
    rewrite length_fmap, lookup_drop. f_equal. lia.
  - rewrite length_app, length_fmap, length_drop. lia.
  - exists (risingIndices prev btns). split; [apply detectEdges_batch|]. split.
    + intros i Hi. rewrite elem_of_risingIndices, Hi. by intros [[=] _].
    + intros i Hi. rewrite elem_of_risingIndices, Hi. simpl. intuition.
Qed.

(** ** The log *)

Lemma newLogs_batch s env :
  ∃ idxs : list nat,
    newLogs s env = imap (mkEntry env) idxs ∧ StronglySorted lt idxs ∧
    ∀ i, i ∈ idxs ↔ ∃ gp, currentGp s env = Some gp ∧
                          pressed <$> gp_buttons gp !! i = Some true ∧
                          truthy (prevButtonsRef s !! i) = false.
Proof.
  unfold newLogs. destruct (currentGp s env) as [gp|].
  - exists (risingIndices (prevButtonsRef s) (gp_buttons gp)).
    split; [apply detectEdges_batch|]. split; [apply risingFrom_sorted|].
    intros i. rewrite elem_of_risingIndices. split.
    + intros [? ?]. by exists gp.
    + by intros (? & [= <-] & ? & ?).
  - exists []. split; [done|]. split; [constructor|].
    intros i. split; [by intros ?%elem_of_nil | by intros (? & ? & _)].
Qed.

Lemma inputLog_runEffects_same before after :
  activeGamepadIndex after = activeGamepadIndex before →
  inputLog (runEffects before after) = inputLog after.
Proof. intros Heq. unfold runEffects. by rewrite decide_True. Qed.

Lemma scanGamepads_log_updates s env :
  newLogs s env = [] →
  Forall (λ u, isLogUpdate u = false)
         (scanGamepads (activeGamepadIndex s) (prevButtonsRef s) env).2.
Proof.
  unfold newLogs, currentGp, scanGamepads.
  scan_cases s env; intros Hnone; subst; simpl in *.
  all: repeat case_decide; try lia; by repeat constructor.
Qed.

(** C7. The entries of one frame are those of the buttons of the sampled
    device that rose in it (pressed now, prior tracker value false), one
    each, taken in strictly ascending button index, and when there is at
    least one the log React renders after the frame is the whole batch
    followed by the previous log, cut to its first 50 entries: every entry
    of the batch is in front of every entry of an earlier frame. (The log
    is left as it is when the batch is empty, and a frame that keeps the
    active slot ends with the rendered log.) *)
Theorem batch_prepended_in_index_order s env :
  ∃ idxs : list nat,
    StronglySorted lt idxs ∧
    (∀ i, i ∈ idxs ↔ ∃ gp, currentGp s env = Some gp ∧
                          pressed <$> gp_buttons gp !! i = Some true ∧
                          truthy (prevButtonsRef s !! i) = false) ∧
    newLogs s env = imap (mkEntry env) idxs ∧
    inputLog (rendered s (AnimationFrame env)) =
      (if decide (idxs = []) then inputLog s
       else take 50 (imap (mkEntry env) idxs ++ inputLog s)) ∧
    (activeGamepadIndex (step s (AnimationFrame env)) = activeGamepadIndex s →
     inputLog (step s (AnimationFrame env)) = inputLog (rendered s (AnimationFrame env))).
Proof.
  destruct (newLogs_batch s env) as (idxs & Hbatch & Hsorted & Hidxs).
  exists idxs. split; [done|]. split; [done|]. split; [done|]. split.
  - rewrite inputLog_rendered_frame, Hbatch, length_imap.
    destruct idxs; simpl; repeat case_decide; try done; lia.
  - unfold step. rewrite activeGamepadIndex_runEffects. intros Hsame.
    by apply inputLog_runEffects_same.
Qed.

(** C10. When no button of the sampled device rises in a frame,
    [scanGamepads] queues no update of the log at all, so the log React
    renders after the frame is the log of before; and it is still that log
    after the effects of a frame that keeps the active slot. *)
Theorem no_rising_edge_no_log_update s env :
  noRisingEdge s env →
  Forall (λ u, isLogUpdate u = false)
         (scanGamepads (activeGamepadIndex s) (prevButtonsRef s) env).2 ∧
  inputLog (rendered s (AnimationFrame env)) = inputLog s ∧
  (activeGamepadIndex (step s (AnimationFrame env)) = activeGamepadIndex s →
   inputLog (step s (AnimationFrame env)) = inputLog s).
Proof.
  intros Hquiet.
  assert (newLogs s env = []) as Hnone.
  { destruct (newLogs_batch s env) as (idxs & -> & _ & Hidxs).
    destruct idxs as [|i idxs]; [done|]. exfalso.
    destruct (proj1 (Hidxs i)) as (gp & Hgp & Hp & Hprior); [by left|].
    destruct (gp_buttons gp !! i) as [btn|] eqn:Hbtn; [|done].
    simpl in Hp. injection Hp as Hp.
    rewrite (Hquiet gp i btn Hgp Hbtn Hp) in Hprior. done. }
  assert (inputLog (rendered s (AnimationFrame env)) = inputLog s) as Hrendered.
  { rewrite inputLog_rendered_frame, Hnone. by case_decide; simpl in *; [lia|]. }
  split; [by apply scanGamepads_log_updates|]. split; [done|].
  unfold step. rewrite activeGamepadIndex_runEffects. intros Hsame.
  by rewrite inputLog_runEffects_same.
Qed.

Lemma no_rising_edge_no_log_update_witness :
  noRisingEdge holding0 stillHolding0 ∧
  length (inputLog holding0) = 1 ∧
  Forall (λ u, isLogUpdate u = false)
         (scanGamepads (activeGamepadIndex holding0) (prevButtonsRef holding0)
                       stillHolding0).2 ∧
  inputLog (rendered holding0 (AnimationFrame stillHolding0)) = inputLog holding0.
Proof.
  assert (noRisingEdge holding0 stillHolding0) as Hquiet.
  { intros gp i btn Hgp Hbtn Hp. vm_compute in Hgp. injection Hgp as <-.
    destruct i as [|[|i]]; simpl in Hbtn; [reflexivity | | discriminate].
    injection Hbtn as <-. discriminate. }
  split; [exact Hquiet|]. split; [reflexivity|].
  destruct (no_rising_edge_no_log_update holding0 stillHolding0 Hquiet)
    as (Hqueue & Hlog & _).
  split; [exact Hqueue | exact Hlog].
Defined.

(** ** Session reset and clearing *)

(** C3. Whenever a callback changes the active slot (from none to a slot,
    from a slot to none, or from a slot to another), the state the next
    frame starts from has a fresh all-false tracker and an empty log: the
    next sample judges every button against false, so its batch is exactly
    the pressed buttons of the device it samples, and the log after it
    holds entries of that batch only. *)
Theorem session_change_resets s ev :
  activeGamepadIndex (step s ev) ≠ activeGamepadIndex s →
  let s' := step s ev in
  prevButtonsRef s' = freshTracker ∧
  inputLog s' = [] ∧
  (∀ i, truthy (prevButtonsRef s' !! i) = false) ∧
  ∀ env, ∃ idxs : list nat,
    newLogs s' env = imap (mkEntry env) idxs ∧
    (∀ i, i ∈ idxs ↔ ∃ gp, currentGp s' env = Some gp ∧
                           pressed <$> gp_buttons gp !! i = Some true) ∧
    inputLog (rendered s' (AnimationFrame env)) = take 50 (newLogs s' env).
Proof.
  intros Hchange. cbv zeta.
  assert (prevButtonsRef (step s ev) = freshTracker ∧ inputLog (step s ev) = [])
    as [Htracker Hlog].
  { revert Hchange. unfold step, runEffects. case_decide as Hsame; [|done].
    intros Hchange. by rewrite Hsame in Hchange. }
  assert (∀ i, truthy (prevButtonsRef (step s ev) !! i) = false) as Hfalse.
  { intros i. rewrite Htracker. unfold freshTracker.
    destruct (replicate 20 false !! i) as [b|] eqn:Hb; [|done].
    by apply lookup_replicate in Hb as [-> _]. }
  split; [done|]. split; [done|]. split; [done|].
  intros env. destruct (newLogs_batch (step s ev) env) as (idxs & Hbatch & _ & Hidxs).
  exists idxs. split; [done|]. split.
  - intros i. rewrite Hidxs. split.
    + intros (gp & ? & ? & _). by exists gp.
    + intros (gp & ? & ?). exists gp. by rewrite Hfalse.
  - rewrite inputLog_rendered_frame, Hlog, app_nil_r.
    case_decide; [done|]. by destruct (newLogs (step s ev) env); simpl in *; [|lia].
Qed.

Lemma session_change_resets_witness :
  (let ev := AnimationFrame (twoButtons 1000 true false) in
   activeGamepadIndex mounted = None ∧
   activeGamepadIndex (step mounted ev) = Some 0 ∧
   prevButtonsRef (step mounted ev) = freshTracker ∧
   inputLog (step mounted ev) = []) ∧
  (let ev := AnimationFrame (frameAt 1032 "0.5" [None]) in
   activeGamepadIndex holding0 = Some 0 ∧
   activeGamepadIndex (step holding0 ev) = None ∧
   prevButtonsRef (step holding0 ev) = freshTracker ∧
   inputLog (step holding0 ev) = []) ∧
  (let ev := AnimationFrame (switchToSlot1 1032) in
   activeGamepadIndex holding0 = Some 0 ∧
   activeGamepadIndex (step holding0 ev) = Some 1 ∧
   prevButtonsRef (step holding0 ev) = freshTracker ∧
   inputLog (step holding0 ev) = []).
Proof.
  split; [|split]; cbv zeta.
  - split; [reflexivity|]. split; [reflexivity|].
    destruct (session_change_resets mounted
                (AnimationFrame (twoButtons 1000 true false)))
      as (Htracker & Hlog & _); [vm_compute; discriminate|].
    split; [exact Htracker | exact Hlog].
  - split; [reflexivity|]. split; [reflexivity|].
    destruct (session_change_resets holding0
                (AnimationFrame (frameAt 1032 "0.5" [None])))
      as (Htracker & Hlog & _); [vm_compute; discriminate|].
    split; [exact Htracker | exact Hlog].
  - split; [reflexivity|]. split; [reflexivity|].
    destruct (session_change_resets holding0
                (AnimationFrame (switchToSlot1 1032)))
      as (Htracker & Hlog & _); [vm_compute; discriminate|].
    split; [exact Htracker | exact Hlog].
Defined.

(** The timeline of a switch from slot 0 to slot 1. The frame that selects
    slot 1 samples it at once, against the tracker of slot 0 (button 0 was
    held there, so the new device's held button 0 is no edge) and on top of
    the old log; the effects of the render then reset both, and the next
    frame logs the held button against the fresh tracker. *)
Example switch_timeline :
  let s1 := step holding0 (AnimationFrame (switchToSlot1 1032)) in
  let s2 := step s1 (AnimationFrame (switchToSlot1 1048)) in
  take 2 (prevButtonsRef holding0) = [true; false] ∧
  newLogs holding0 (switchToSlot1 1032) = [] ∧
  log_id <$> inputLog (rendered holding0 (AnimationFrame (switchToSlot1 1032)))
    = ["1016-0-0.5"] ∧
  activeGamepadIndex s1 = Some 1 ∧ inputLog s1 = [] ∧
  prevButtonsRef s1 = freshTracker ∧
  log_id <$> inputLog s2 = ["1048-0-0.5"] ∧
  take 2 (prevButtonsRef s2) = [true; false].
Proof. vm_compute. done. Qed.

(** C9. Clearing empties the log at once; a second clearing right after
    changes nothing; the tracker and the active slot are left alone, so
    the batch of any following frame is what it would have been without
    the clearing (a held button is not logged again). *)
Theorem clearLog_idempotent s :
  let s1 := step s ClearLogClick in
  inputLog s1 = [] ∧
  step s1 ClearLogClick = s1 ∧
  prevButtonsRef s1 = prevButtonsRef s ∧
  activeGamepadIndex s1 = activeGamepadIndex s ∧
  ∀ env, newLogs s1 env = newLogs s env.
Proof.
  cbv zeta.
  assert (step s ClearLogClick = {|
            activeGamepadIndex := activeGamepadIndex s;
            gamepadState := gamepadState s;
            inputLog := [];
            prevButtonsRef := prevButtonsRef s;
            listeners := listeners s |}) as Hclear.
  { unfold step, runEffects, rendered. simpl. by rewrite decide_True. }
  rewrite Hclear. split; [done|]. split.
  - unfold step, runEffects, rendered. simpl. by rewrite decide_True.
  - done.
Qed.

(** ** The capacity of the log *)

Lemma take_app_take {T} n (b l : list T) :
  take n (b ++ take n l) = take n (b ++ l).
Proof.
  rewrite !take_app. f_equal. rewrite take_take. f_equal. lia.
Qed.

Lemma inputLog_step_le s ev :
  length (inputLog s) ≤ 50 → length (inputLog (step s ev)) ≤ 50.
Proof.
  intros Hlen. unfold step, runEffects. case_decide; [|simpl; lia].
  destruct ev as [env| i | i |].
  - rewrite inputLog_rendered_frame. case_decide; [|done].
    rewrite length_take. lia.
  - unfold rendered, dispatch. rewrite inputLog_applyUpdates_other; [done|].
    rewrite Forall_bind. apply Forall_forall. intros captured _. simpl.
    unfold onGamepadConnected. case_decide; by repeat constructor.
  - unfold rendered, dispatch. rewrite inputLog_applyUpdates_other; [done|].
    rewrite Forall_bind. apply Forall_forall. intros captured _. simpl.
    unfold onGamepadDisconnected. case_decide; by repeat constructor.
  - simpl. lia.
Qed.

Lemma inputLog_run_le evs s :
  length (inputLog s) ≤ 50 → length (inputLog (run s evs)) ≤ 50.
Proof.
  revert s. induction evs as [|ev evs IH]; intros s Hlen; [done|].
  simpl. apply IH. by apply inputLog_step_le.
Qed.

Lemma sessionHistory_acc active envs prev acc :
  sessionHistory active prev envs acc = sessionHistory active prev envs [] ++ acc.
Proof.
  revert prev acc. induction envs as [|env rest IH]; intros prev acc; [done|].
  simpl. destruct (active ≫= connectedAt (getGamepads env)) as [gp|]; [|done].
  destruct (detectEdges env prev (gp_buttons gp)) as [prev' batch].
  rewrite (IH prev' (batch ++ acc)), (IH prev' (batch ++ [])).
  by rewrite app_nil_r, app_assoc.
Qed.

(** A frame in which the active slot is still connected: the slot is kept
    and the effects of the session change do not run. *)
Lemma step_frame_stillConnected s env gp :
  activeGamepadIndex s ≫= connectedAt (getGamepads env) = Some gp →
  let s' := step s (AnimationFrame env) in
  let batch := (detectEdges env (prevButtonsRef s) (gp_buttons gp)).2 in
  activeGamepadIndex s' = activeGamepadIndex s ∧
  prevButtonsRef s' = (detectEdges env (prevButtonsRef s) (gp_buttons gp)).1 ∧
  inputLog s' = if decide (0 < length batch)
                then take 50 (batch ++ inputLog s) else inputLog s.
Proof.
  intros Hgp. cbv zeta.
  assert (activeGamepadIndex (rendered s (AnimationFrame env)) = activeGamepadIndex s)
    as Hsame by (by rewrite activeGamepadIndex_rendered_frame, Hgp).
  assert (currentGp s env = Some gp) as Hcur
    by (unfold currentGp, determineFocus; by rewrite Hgp).
  unfold step, runEffects. rewrite decide_True by done.
  split; [done|]. split.
  - by rewrite prevButtonsRef_rendered_frame, Hcur.
  - rewrite inputLog_rendered_frame. unfold newLogs. by rewrite Hcur.
Qed.

Lemma inputLog_run_session envs s :
  length (inputLog s) ≤ 50 →
  Forall (stillConnected s) envs →
  inputLog (run s (AnimationFrame <$> envs)) =
  take 50 (sessionHistory (activeGamepadIndex s) (prevButtonsRef s) envs (inputLog s)).
Proof.
  revert s. induction envs as [|env rest IH]; intros s Hlen Hconn.
  - simpl. by rewrite take_ge by lia.
  - inversion_clear Hconn as [|? ? [gp Hgp] Hrest]. simpl. rewrite Hgp.
    destruct (step_frame_stillConnected s env gp Hgp) as (Hactive & Htracker & Hlog).
    rewrite IH.
    2: { by apply inputLog_step_le. }
    2: { eapply Forall_impl; [exact Hrest|]. intros e. unfold stillConnected.
         by rewrite Hactive. }
    rewrite Hactive, Htracker, Hlog.
    destruct (detectEdges env (prevButtonsRef s) (gp_buttons gp)) as [prev' batch].
    simpl. destruct (decide (0 < length batch)).
    + rewrite (sessionHistory_acc _ _ _ (take _ _)).
      rewrite (sessionHistory_acc _ _ _ (batch ++ _)).
      by rewrite take_app_take.
    + destruct batch; simpl in *; [done | lia].
Qed.

(** C2. The log never holds more than 50 entries. Over the frames of a
    session (the active slot stays connected) it is the newest-first list
    of everything emitted, on top of what it held before, cut to its first
    50 entries: once more than 50 rising edges have occurred it holds
    exactly 50 entries, the 50 most recent ones, and the older ones are
    gone from its tail. *)
Theorem inputLog_bounded_most_recent s envs :
  length (inputLog s) ≤ 50 →
  Forall (stillConnected s) envs →
  let emitted := sessionHistory (activeGamepadIndex s) (prevButtonsRef s) envs [] in
  let s' := run s (AnimationFrame <$> envs) in
  inputLog s' = take 50 (emitted ++ inputLog s) ∧
  (50 < length emitted → inputLog s' = take 50 emitted ∧ length (inputLog s') = 50) ∧
  ∀ evs, length (inputLog (run s evs)) ≤ 50.
Proof.
  intros Hlen Hconn. cbv zeta.
  rewrite inputLog_run_session, sessionHistory_acc by done.
  split; [done|]. split.
  - intros Hmany. rewrite take_app_le by lia. split; [done|].
    rewrite length_take. lia.
  - intros evs. by apply inputLog_run_le.
Qed.

Lemma inputLog_bounded_most_recent_witness :
  let envs := alternating 51 1016 true in
  let emitted :=
    sessionHistory (activeGamepadIndex session0) (prevButtonsRef session0) envs [] in
  let s' := run session0 (AnimationFrame <$> envs) in
  length (inputLog session0) ≤ 50 ∧
  Forall (stillConnected session0) envs ∧
  length emitted = 51 ∧
  inputLog s' = take 50 emitted ∧
  length (inputLog s') = 50.
Proof.
  cbv zeta.
  assert (length (inputLog session0) ≤ 50) as Hlen by (vm_compute; lia).
  assert (Forall (stillConnected session0) (alternating 51 1016 true)) as Hconn
    by (apply (bool_decide_unpack _); vm_compute; exact I).
  split; [exact Hlen|]. split; [exact Hconn|]. split; [vm_compute; reflexivity|].
  destruct (inputLog_bounded_most_recent session0 (alternating 51 1016 true)
              Hlen Hconn) as (_ & Hfull & _).
  apply Hfull. vm_compute. lia.
Defined.

(** Scenarios 1 and 2 of the specification: a two-button device going
    through [false,false], [true,false], [true,true]. *)
Example two_button_scenario :
  let s2 := step session0 (AnimationFrame (twoButtons 1016 true false)) in
  let s3 := step s2 (AnimationFrame (twoButtons 1032 true true)) in
  log_button <$> inputLog s2 = ["A"] ∧
  take 2 (prevButtonsRef s2) = [true; false] ∧
  log_button <$> inputLog s3 = ["B"; "A"] ∧
  log_id <$> inputLog s3 = ["1032-1-0.5"; "1016-0-0.5"] ∧
  log_time <$> inputLog s3 = ["12:00:00.032"; "12:00:00.016"].
Proof. vm_compute. done. Qed.

(** Scenario 4: after 51 edges, one per frame, the first entry is gone and
    the 51st is at the front. *)
Example fifty_first_edge_evicts_first :
  let log := inputLog (run session0 (AnimationFrame <$> alternating 51 1016 true)) in
  length log = 50 ∧
  log_id <$> head log = Some "1816-0-0.5" ∧
  log_id <$> last log = Some "1032-1-0.5" ∧
  bool_decide ("1016-0-0.5" ∈ log_id <$> log) = false.
Proof. vm_compute. done. Qed.

(** ** Identifiers and labels *)

(** A decimal numeral followed by a dash parses back in one way only: the
    digits stop at the dash. *)
Lemma string_of_uint_dash_inj d1 d2 s1 s2 :
  NilEmpty.string_of_uint d1 +:+ "-" +:+ s1 = NilEmpty.string_of_uint d2 +:+ "-" +:+ s2 →
  d1 = d2 ∧ s1 = s2.
Proof.
  revert d2. induction d1 as [|d1 IH|d1 IH|d1 IH|d1 IH|d1 IH|d1 IH|d1 IH|d1 IH|d1 IH|d1 IH];
    intros [|d2|d2|d2|d2|d2|d2|d2|d2|d2|d2]; simpl; intros Heq;
    try discriminate Heq; injection Heq as Heq; try done.
  all: by destruct (IH _ Heq) as [-> ->].
Qed.

Lemma log_id_inj env1 k1 i1 env2 k2 i2 :
  log_id (mkEntry env1 k1 i1) = log_id (mkEntry env2 k2 i2) ↔
  getTime (now env1) = getTime (now env2) ∧ i1 = i2 ∧
  mathRandom env1 k1 = mathRandom env2 k2.
Proof.
  split.
  - simpl. unfold N_to_string, nat_to_string.
    intros [Ht [Hi Hr]%string_of_uint_dash_inj]%string_of_uint_dash_inj.
    apply DecimalN.Unsigned.to_uint_inj in Ht.
    apply DecimalNat.Unsigned.to_uint_inj in Hi. done.
  - intros (Ht & -> & Hr). simpl. by rewrite Ht, Hr.
Qed.

Lemma batch_ids_NoDup env (idxs : list nat) :
  NoDup idxs → NoDup (log_id <$> imap (mkEntry env) idxs).
Proof.
  intros Hidxs. apply NoDup_alt. intros k1 k2 x.
  rewrite !list_lookup_fmap, !list_lookup_imap.
  destruct (idxs !! k1) as [i1|] eqn:H1; [|done].
  destruct (idxs !! k2) as [i2|] eqn:H2; [|done].
  simpl. intros [= <-] [= Heq%log_id_inj].
  destruct Heq as (_ & <- & _).
  by eapply NoDup_lookup.
Qed.

Lemma BUTTON_MAP_domain i : is_Some (BUTTON_MAP !! i) ↔ i < 18.
Proof.
  split.
  - intros Hsome. destruct (decide (i < 18)) as [|Hge]; [done|].
    assert (BUTTON_MAP !! i = None) as Hnone; [|by rewrite Hnone in Hsome; destruct Hsome].
    apply not_elem_of_list_to_map_1. simpl.
    rewrite !elem_of_cons, elem_of_nil. lia.
  - intros Hlt. do 18 (destruct i as [|i]; [by eexists|]). lia.
Qed.

Lemma btnName_lookup i :
  btnName i = default ("Button " +:+ nat_to_string i) (BUTTON_MAP !! i).
Proof.
  unfold btnName. destruct (decide (i < 18)) as [Hlt|Hge].
  - do 18 (destruct i as [|i]; [done|]). lia.
  - destruct (BUTTON_MAP !! i) as [name|] eqn:Hname; [|done].
    exfalso. apply Hge, BUTTON_MAP_domain. by rewrite Hname.
Qed.

Example labels :
  btnName 0 = "A" ∧ btnName 9 = "Menu" ∧ btnName 17 = "Share" ∧
  btnName 18 = "Button 18" ∧ btnName 25 = "Button 25".
Proof. vm_compute. done. Qed.

(** C8, as the code has it. The label of an entry is the name the table
    gives for its button index, and "Button i" for an index the table does
    not map (18 and above). Its identifier is made of the clock reading, the
    button index and a random draw, and two identifiers are equal exactly
    when all three parts are: the entries of one frame, which share the
    clock reading, always carry pairwise distinct identifiers, and entries
    of different frames do unless clock reading, index and draw all
    coincide. *)
Theorem entry_id_and_label :
  (∀ env k i,
     log_button (mkEntry env k i) = default ("Button " +:+ nat_to_string i) (BUTTON_MAP !! i)) ∧
  (∀ i, is_Some (BUTTON_MAP !! i) ↔ i < 18) ∧
  (∀ env1 k1 i1 env2 k2 i2,
     log_id (mkEntry env1 k1 i1) = log_id (mkEntry env2 k2 i2) ↔
     getTime (now env1) = getTime (now env2) ∧ i1 = i2 ∧
     mathRandom env1 k1 = mathRandom env2 k2) ∧
  (∀ env prev btns, NoDup (log_id <$> (detectEdges env prev btns).2)) ∧
  (∀ s env, NoDup (log_id <$> newLogs s env)).
Proof.
  split; [intros; apply btnName_lookup|]. split; [apply BUTTON_MAP_domain|].
  split; [apply log_id_inj|]. split.
  - intros env prev btns. rewrite detectEdges_batch.
    apply batch_ids_NoDup, risingIndices_NoDup.
  - intros s env. unfold newLogs. destruct (currentGp s env) as [gp|]; [|constructor].
    rewrite detectEdges_batch. apply batch_ids_NoDup, risingIndices_NoDup.
Qed.

(** Identifiers are not unique across all entries: pressing button 0 of a
    standard 17-button device twice within one reading of the clock, with
    equal random draws, puts two entries with one identifier in the log.
    The panel renders after the mount and after each of the four frames,
    so the component lives through the whole run. *)
Lemma duplicate_id_across_frames :
  (λ n, panelRenders (run mounted (take n sameTick))) <$> [0; 1; 2; 3; 4]
    = [true; true; true; true; true] ∧
  log_button <$> inputLog (run mounted sameTick) = ["A"; "A"] ∧
  log_id <$> inputLog (run mounted sameTick) = ["1000-0-0.5"; "1000-0-0.5"] ∧
  ¬ NoDup (log_id <$> inputLog (run mounted sameTick)).
Proof.
  assert (log_id <$> inputLog (run mounted sameTick) = ["1000-0-0.5"; "1000-0-0.5"])
    as Hids by (vm_compute; reflexivity).
  split; [vm_compute; reflexivity|]. split; [vm_compute; reflexivity|].
  split; [exact Hids|]. rewrite Hids. intros Hnodup.
  apply NoDup_cons in Hnodup as [Hnotin _]. apply Hnotin. by left.
Qed.

(** ** Reading a short device *)

Lemma axisValue_out_of_range gs a :
  length (axes gs) ≤ AxisIndex_value a → axisValue gs a = 0%float.
Proof. intros Hshort. unfold axisValue. by rewrite lookup_ge_None_2. Qed.

Lemma renderPanel_short_device gs :
  length (buttons gs) ≤ ButtonIndex_value RT → renderPanel (Some gs) = Throw TypeError.
Proof.
  intros Hshort. unfold renderPanel, buttonValue.
  destruct (buttons gs !! ButtonIndex_value LT); simpl; [|done].
  by rewrite lookup_ge_None_2.
Qed.

(** C5, on a connected device with four buttons and two axes. Sampling it
    succeeds and the two missing axes read as 0, but the panel reads
    [.value] of the missing LT and RT entries without a guard: the read
    throws a [TypeError] instead of yielding 0, and so does the render. *)
Theorem short_device_trigger_read_throws :
  let gs := mapGamepadToState fourButtonPad in
  length (buttons gs) = 4 ∧ length (axes gs) = 2 ∧
  axisValue gs LX = 0.25%float ∧
  axisValue gs RX = 0%float ∧ axisValue gs RY = 0%float ∧
  buttonValue gs LT = Throw TypeError ∧
  buttonValue gs RT = Throw TypeError ∧
  renderPanel (Some gs) = Throw TypeError.
Proof. cbv zeta. repeat split; reflexivity. Qed.

(** * Further properties of the component *)

(** ** The window listeners *)

Lemma listeners_applyUpdates us s : listeners (applyUpdates s us) = listeners s.
Proof.
  revert s. induction us as [|u us IH]; intros s; [done|].
  simpl. rewrite IH. by destruct u.
Qed.

Lemma gamepadState_applyUpdates_other us s :
  Forall (λ u, match u with SetGamepadState _ => False | _ => True end) us →
  gamepadState (applyUpdates s us) = gamepadState s.
Proof.
  revert s. induction us as [|u us IH]; intros s Hus; [done|].
  inversion_clear Hus as [|? ? Hu Hrest]. simpl. rewrite IH by done. by destruct u.
Qed.

Lemma listeners_rendered s ev : listeners (rendered s ev) = listeners s.
Proof.
  unfold rendered. destruct (dispatch s ev) as [prev us].
  by rewrite listeners_applyUpdates.
Qed.

(** Listeners are only ever added: one pair per change of the active
    slot, capturing the new value. *)
Lemma listeners_step s ev :
  listeners (step s ev) =
  listeners s ++
  (if decide (activeGamepadIndex s = activeGamepadIndex (step s ev)) then []
   else [activeGamepadIndex (step s ev)]).
Proof.
  unfold step. rewrite activeGamepadIndex_runEffects. unfold runEffects.
  case_decide; simpl; rewrite listeners_rendered; [by rewrite app_nil_r | done].
Qed.

Lemma run_snoc s evs ev : run s (evs ++ [ev]) = step (run s evs) ev.
Proof. unfold run. by rewrite foldl_snoc. Qed.

(** The captured values of the registered listeners are the values the
    active slot has taken since the mount. *)
Lemma elem_of_listeners_run evs a :
  a ∈ listeners (run mounted evs) ↔ wasActive evs a.
Proof.
  unfold wasActive. induction evs as [|ev evs IH] using rev_ind.
  - simpl. rewrite list_elem_of_singleton. split.
    + intros ->. by exists [], [].
    + intros (evs1 & evs2 & Heq & <-).
      symmetry in Heq. apply app_eq_nil in Heq as [-> _]. done.
  - rewrite run_snoc, listeners_step, elem_of_app, IH. split.
    + intros [(evs1 & evs2 & -> & Ha) | Hnew].
      * exists evs1, (evs2 ++ [ev]). by rewrite app_assoc.
      * case_decide; [by apply elem_of_nil in Hnew|].
        apply list_elem_of_singleton in Hnew as ->.
        exists (evs ++ [ev]), []. by rewrite app_nil_r, run_snoc.
    + intros (evs1 & evs2 & Heq & Ha).
      destruct evs2 as [|ev2 evs2 _] using rev_ind.
      * rewrite app_nil_r in Heq. subst evs1. rewrite run_snoc in Ha.
        case_decide as Hsame.
        -- left. exists evs, []. rewrite app_nil_r. split; [done|]. congruence.
        -- right. apply list_elem_of_singleton. done.
      * rewrite app_assoc in Heq. apply app_inj_tail in Heq as [-> ->].
        left. by exists evs1, evs2.
Qed.

Lemma applyUpdates_app s us1 us2 :
  applyUpdates s (us1 ++ us2) = applyUpdates (applyUpdates s us1) us2.
Proof. unfold applyUpdates. by rewrite foldl_app. Qed.

(** What the [gamepadconnected] listeners queue together amounts to one
    [setActiveGamepadIndex(index)], provided one of them captured no
    active slot. *)
Lemma connected_listeners_updates l s0 i :
  applyUpdates s0 (l ≫= λ captured, onGamepadConnected captured i) =
  if decide (None ∈ l) then applyUpdates s0 [SetActiveGamepadIndex (Some i)] else s0.
Proof.
  revert s0. induction l as [|c l IH]; intros s0.
  - destruct (decide (None ∈ [])) as [Hin|]; [by apply elem_of_nil in Hin | done].
  - rewrite bind_cons, applyUpdates_app, IH. unfold onGamepadConnected.
    destruct c as [j|].
    + rewrite (decide_False (P := Some j = None)) by done. simpl.
      destruct (decide (None ∈ l)) as [Hin | Hin].
      * rewrite decide_True; [done|]. by right.
      * rewrite decide_False; [done|]. by intros [|]%elem_of_cons.
    + rewrite (decide_True (P := None = None)) by done.
      rewrite (decide_True (P := None ∈ None :: l)) by left.
      by destruct (decide (None ∈ l)).
Qed.

(** What the [gamepaddisconnected] listeners queue together: nothing, or
    the clearing of the active slot and of the snapshot when one of them
    captured the slot of the event. *)
Lemma disconnected_listeners_updates l s0 i :
  applyUpdates s0 (l ≫= λ captured, onGamepadDisconnected captured i) =
  if decide (Some i ∈ l)
  then applyUpdates s0 [SetActiveGamepadIndex None; SetGamepadState None] else s0.
Proof.
  revert s0. induction l as [|c l IH]; intros s0.
  - destruct (decide (Some i ∈ [])) as [Hin|]; [by apply elem_of_nil in Hin | done].
  - rewrite bind_cons, applyUpdates_app, IH. unfold onGamepadDisconnected.
    destruct (decide (c = Some i)) as [-> | Hne].
    + rewrite (decide_True (P := Some i ∈ Some i :: l)) by left.
      by destruct (decide (Some i ∈ l)).
    + simpl. destruct (decide (Some i ∈ l)) as [Hin | Hin].
      * rewrite decide_True; [done|]. by right.
      * rewrite decide_False; [done|]. intros [|]%elem_of_cons; congruence.
Qed.

Lemma with_ref_same s : with_ref s (prevButtonsRef s) = s.
Proof. by destruct s. Qed.

Lemma runEffects_same s : runEffects s s = s.
Proof. unfold runEffects. by rewrite decide_True. Qed.

(** X1. After the mount and any events, a [gamepadconnected] event for
    slot [i] makes [i] the active slot, whatever slot was active: the
    listener registered at the mount captured "no active slot" and is
    never removed. The snapshot is left as it is; when the active slot
    changes thereby, the log is emptied and the tracker reset, and when
    [i] was the active slot already nothing changes. *)
Theorem connect_event_takes_focus evs i :
  let s := run mounted evs in
  let s' := step s (GamepadConnected i) in
  activeGamepadIndex s' = Some i ∧
  gamepadState s' = gamepadState s ∧
  (activeGamepadIndex s = Some i → s' = s) ∧
  (activeGamepadIndex s ≠ Some i →
   inputLog s' = [] ∧ prevButtonsRef s' = freshTracker).
Proof.
  cbv zeta. set (s := run mounted evs).
  assert (None ∈ listeners s) as Hmount.
  { apply elem_of_listeners_run. by exists [], evs. }
  assert (rendered s (GamepadConnected i)
          = applyUpdates s [SetActiveGamepadIndex (Some i)]) as Hrendered.
  { unfold rendered, dispatch. rewrite connected_listeners_updates, with_ref_same.
    by rewrite decide_True. }
  unfold step. rewrite Hrendered. unfold runEffects. simpl.
  split; [by case_decide|]. split; [by case_decide|]. split.
  - intros Hsame. rewrite decide_True by done.
    destruct s; simpl in *; by subst.
  - intros Hother. by rewrite decide_False by done.
Qed.

(** X2. After the mount and any events, a [gamepaddisconnected] event for
    slot [i] clears the active slot and the snapshot exactly when [i] has
    been the active slot at some time since the mount, be it the active
    slot now or not (the listeners of earlier sessions are still
    registered); when a slot was active, the log is emptied and the tracker
    reset with it. For a slot that never was active the event changes
    nothing. *)
Theorem disconnect_event_clears_focus evs i :
  let s := run mounted evs in
  let s' := step s (GamepadDisconnected i) in
  (wasActive evs (Some i) →
   activeGamepadIndex s' = None ∧ gamepadState s' = None ∧
   (activeGamepadIndex s ≠ None →
    inputLog s' = [] ∧ prevButtonsRef s' = freshTracker)) ∧
  (¬ wasActive evs (Some i) → s' = s).
Proof.
  cbv zeta. set (s := run mounted evs).
  assert (rendered s (GamepadDisconnected i) =
          if decide (Some i ∈ listeners s)
          then applyUpdates s [SetActiveGamepadIndex None; SetGamepadState None]
          else s) as Hrendered.
  { unfold rendered, dispatch.
    by rewrite disconnected_listeners_updates, with_ref_same. }
  unfold step. rewrite Hrendered. clear Hrendered. split.
  - intros Hwas%elem_of_listeners_run. rewrite decide_True by done.
    unfold runEffects. simpl.
    split; [by case_decide|]. split; [by case_decide|].
    intros Hactive. by rewrite decide_False by done.
  - intros Hnever. rewrite decide_False, runEffects_same; [done|].
    unfold s. by rewrite elem_of_listeners_run.
Qed.

(** A second controller that announces itself takes the focus from the
    one in use, and the disconnection of a controller used earlier ends
    the session of the one in use. *)
Example stale_listeners :
  let s1 := step holding0 (GamepadConnected 1) in
  let s2 := step (step holding0 (AnimationFrame (switchToSlot1 1032)))
                 (AnimationFrame (switchToSlot1 1048)) in
  let s3 := step s2 (GamepadDisconnected 0) in
  activeGamepadIndex holding0 = Some 0 ∧ length (inputLog holding0) = 1 ∧
  activeGamepadIndex s1 = Some 1 ∧ inputLog s1 = [] ∧
  activeGamepadIndex s2 = Some 1 ∧ length (inputLog s2) = 1 ∧
  activeGamepadIndex s3 = None ∧ inputLog s3 = [].
Proof. vm_compute. done. Qed.

(** ** Invariants of the reachable states *)

Lemma connectedAt_Some gamepads i gp :
  connectedAt gamepads i = Some gp ↔
  gamepads !! i = Some (Some gp) ∧ gp_connected gp = true.
Proof.
  unfold connectedAt. destruct (gamepads !! i) as [[g|]|].
  - destruct (gp_connected g) eqn:Hconn; split.
    + by intros [= <-].
    + by intros [[= <-] _].
    + done.
    + intros [[= <-] ?]. congruence.
  - split; [done | by intros [[=] _]].
  - split; [done | by intros [[=] _]].
Qed.

(** The device a frame samples sits, connected, in a slot of that frame. *)
Lemma currentGp_Some s env gp :
  currentGp s env = Some gp →
  ∃ i, getGamepads env !! i = Some (Some gp) ∧ gp_connected gp = true.
Proof.
  unfold currentGp, determineFocus.
  destruct (activeGamepadIndex s) as [a|] eqn:Hactive; simpl.
  - destruct (connectedAt (getGamepads env) a) as [g|] eqn:Hkeep; simpl.
    + intros [= <-]. exists a. by apply connectedAt_Some.
    + destruct (firstConnected (getGamepads env) 0) as [[i g]|] eqn:Hfirst; [|done].
      intros [= <-]. apply firstConnected_Some in Hfirst as (_ & Hc & _).
      exists (i - 0). by apply connectedAt_Some.
  - destruct (firstConnected (getGamepads env) 0) as [[i g]|] eqn:Hfirst; [|done].
    intros [= <-]. apply firstConnected_Some in Hfirst as (_ & Hc & _).
    exists (i - 0). by apply connectedAt_Some.
Qed.

Lemma gamepadState_step s ev gs :
  gamepadState (step s ev) = Some gs →
  gamepadState s = Some gs ∨
  ∃ env gp, ev = AnimationFrame env ∧ currentGp s env = Some gp ∧
            gs = mapGamepadToState gp.
Proof.
  unfold step. rewrite gamepadState_runEffects. destruct ev as [env|i|i|].
  - rewrite gamepadState_rendered_frame.
    destruct (currentGp s env) as [gp|] eqn:Hgp; [|done].
    intros [= <-]. right. by exists env, gp.
  - unfold rendered, dispatch. rewrite connected_listeners_updates, with_ref_same.
    case_decide; simpl; by left.
  - unfold rendered, dispatch. rewrite disconnected_listeners_updates, with_ref_same.
    case_decide; simpl; [done | by left].
  - simpl. by left.
Qed.

Lemma inputLog_step s ev e :
  e ∈ inputLog (step s ev) →
  e ∈ inputLog s ∨ ∃ env, ev = AnimationFrame env ∧ e ∈ newLogs s env.
Proof.
  unfold step, runEffects. case_decide; [|by intros ?%elem_of_nil].
  destruct ev as [env|i|i|].
  - rewrite inputLog_rendered_frame. case_decide; [|by left].
    intros Hin%(subseteq_take 50)%elem_of_app. destruct Hin; [right | by left].
    by exists env.
  - unfold rendered, dispatch. rewrite connected_listeners_updates, with_ref_same.
    case_decide; simpl; by left.
  - unfold rendered, dispatch. rewrite disconnected_listeners_updates, with_ref_same.
    case_decide; simpl; by left.
  - by intros ?%elem_of_nil.
Qed.

(** X3. After the mount and any events, a snapshot the component
    publishes is the sample of a device that sat, connected, in a slot of
    one of the frames: no snapshot ever has [connected] false, so the
    status dot (which tests [gamepadState?.connected]) and the status text
    (which tests [gamepadState]) always agree. *)
Theorem snapshot_is_of_connected_device evs gs :
  gamepadState (run mounted evs) = Some gs →
  connected gs = true ∧
  ∃ env i gp, AnimationFrame env ∈ evs ∧
              getGamepads env !! i = Some (Some gp) ∧ gs = mapGamepadToState gp.
Proof.
  induction evs as [|ev evs IH] using rev_ind; [done|].
  rewrite run_snoc. intros [Hold | (env & gp & -> & Hgp & ->)]%gamepadState_step.
  - destruct (IH Hold) as (Hconn & env & i & gp & Hin & Hslot & ->).
    split; [done|]. exists env, i, gp. split; [|done].
    apply elem_of_app. by left.
  - destruct (currentGp_Some _ _ _ Hgp) as (i & Hslot & Hconn).
    split; [done|]. exists env, i, gp. split; [|done].
    apply elem_of_app. right. by left.
Qed.

Lemma snapshot_is_of_connected_device_witness :
  let evs := [AnimationFrame (twoButtons 1000 true false)] in
  let gs := mapGamepadToState (pad [true; false] []) in
  gamepadState (run mounted evs) = Some gs ∧ connected gs = true.
Proof.
  cbv zeta. split; [reflexivity|].
  apply (snapshot_is_of_connected_device
           [AnimationFrame (twoButtons 1000 true false)]). reflexivity.
Defined.

(** X4. After the mount and any events, every entry in the log was made
    in one of the frames, for a button that was pressed in that frame on a
    device sitting, connected, in one of its slots: entries are never
    altered once made, and none is made for a button that is not pressed. *)
Theorem log_entries_come_from_presses evs e :
  e ∈ inputLog (run mounted evs) →
  ∃ env k i j gp btn,
    AnimationFrame env ∈ evs ∧
    getGamepads env !! j = Some (Some gp) ∧ gp_connected gp = true ∧
    gp_buttons gp !! i = Some btn ∧ pressed btn = true ∧
    e = mkEntry env k i.
Proof.
  induction evs as [|ev evs IH] using rev_ind; [by intros ?%elem_of_nil|].
  rewrite run_snoc. intros [Hold | (env & -> & Hnew)]%inputLog_step.
  - destruct (IH Hold) as (env & k & i & j & gp & btn & Hin & Hrest).
    exists env, k, i, j, gp, btn. split; [|done]. apply elem_of_app. by left.
  - destruct (newLogs_batch (run mounted evs) env) as (idxs & Hbatch & _ & Hidxs).
    rewrite Hbatch in Hnew. apply list_elem_of_lookup in Hnew as [k Hk].
    rewrite list_lookup_imap in Hk.
    destruct (idxs !! k) as [i|] eqn:Hi; [|done]. injection Hk as <-.
    destruct (proj1 (Hidxs i)) as (gp & Hgp & Hp & _).
    { apply list_elem_of_lookup. by exists k. }
    destruct (currentGp_Some _ _ _ Hgp) as (j & Hslot & Hconn).
    destruct (gp_buttons gp !! i) as [btn|] eqn:Hbtn; [|done].
    injection Hp as Hp.
    exists env, k, i, j, gp, btn. split; [|done].
    apply elem_of_app. right. by left.
Qed.

Lemma log_entries_come_from_presses_witness :
  let env := twoButtons 1016 true false in
  let evs := [AnimationFrame (twoButtons 1000 false false); AnimationFrame env] in
  mkEntry env 0 0 ∈ inputLog (run mounted evs) ∧
  ∃ env' k i j gp btn,
    AnimationFrame env' ∈ evs ∧
    getGamepads env' !! j = Some (Some gp) ∧ gp_connected gp = true ∧
    gp_buttons gp !! i = Some btn ∧ pressed btn = true ∧
    mkEntry env 0 0 = mkEntry env' k i.
Proof.
  cbv zeta.
  assert (mkEntry (twoButtons 1016 true false) 0 0 ∈
          inputLog (run mounted [AnimationFrame (twoButtons 1000 false false);
                                 AnimationFrame (twoButtons 1016 true false)]))
    as Hin by (vm_compute; left).
  split; [exact Hin|].
  exact (log_entries_come_from_presses _ _ Hin).
Defined.

(** ** Holding a button *)

(** A frame of a continuing session, as a whole state. *)
Lemma step_frame_session s env gp :
  activeGamepadIndex s ≫= connectedAt (getGamepads env) = Some gp →
  step s (AnimationFrame env) = {|
    activeGamepadIndex := activeGamepadIndex s;
    gamepadState := Some (mapGamepadToState gp);
    inputLog :=
      (let batch := (detectEdges env (prevButtonsRef s) (gp_buttons gp)).2 in
       if decide (0 < length batch) then take 50 (batch ++ inputLog s)
       else inputLog s);
    prevButtonsRef := (detectEdges env (prevButtonsRef s) (gp_buttons gp)).1;
    listeners := listeners s;
  |}.
Proof.
  intros Hgp. unfold step, rendered, dispatch, scanGamepads, determineFocus.
  rewrite Hgp. destruct (detectEdges _ _ _) as [prev' batch]. simpl.
  destruct (decide (0 < length batch)); simpl; unfold runEffects; simpl;
    by rewrite decide_True.
Qed.

Lemma risingIndices_after_frame env prev btns :
  risingIndices (detectEdges env prev btns).1 btns = [].
Proof.
  destruct (risingIndices _ btns) as [|i rest] eqn:Hidxs; [done|]. exfalso.
  assert (i ∈ risingIndices (detectEdges env prev btns).1 btns) as Hin
    by (rewrite Hidxs; left).
  apply elem_of_risingIndices in Hin as [Hp Hprior].
  rewrite detectEdges_tracker in Hprior.
  destruct (btns !! i) as [btn|] eqn:Hbtn; [|done].
  rewrite lookup_app_l in Hprior
    by (rewrite length_fmap; by eapply lookup_lt_Some).
  rewrite list_lookup_fmap, Hbtn in Hprior. simpl in *. congruence.
Qed.

(** X5. While the active slot stays connected, a frame that finds the
    slots as the frame before found them changes nothing at all, whatever
    the clock and the random generator say: a button that is held is
    logged once, not once per frame. *)
Theorem held_buttons_frame_changes_nothing s env env' :
  stillConnected s env →
  getGamepads env' = getGamepads env →
  step (step s (AnimationFrame env)) (AnimationFrame env') = step s (AnimationFrame env).
Proof.
  intros [gp Hgp] Hslots.
  rewrite (step_frame_session s env gp Hgp).
  rewrite (step_frame_session _ env' gp) by (simpl; by rewrite Hslots).
  simpl. f_equal.
  - rewrite detectEdges_batch, risingIndices_after_frame.
    destruct (decide (0 < length (imap (mkEntry env') []))) as [Hlt|]; [|done].
    simpl in Hlt. lia.
  - rewrite !detectEdges_tracker. rewrite drop_app_length'; [done|].
    by rewrite length_fmap.
Qed.

Lemma held_buttons_frame_changes_nothing_witness :
  let env := twoButtons 1016 true false in
  let env' := twoButtons 1032 true false in
  stillConnected session0 env ∧
  log_button <$> inputLog (step session0 (AnimationFrame env)) = ["A"] ∧
  step (step session0 (AnimationFrame env)) (AnimationFrame env')
  = step session0 (AnimationFrame env).
Proof.
  cbv zeta.
  assert (stillConnected session0 (twoButtons 1016 true false)) as Hconn
    by (apply (bool_decide_unpack _); vm_compute; exact I).
  split; [exact Hconn|]. split; [reflexivity|].
  apply (held_buttons_frame_changes_nothing session0
           (twoButtons 1016 true false) (twoButtons 1032 true false) Hconn).
  reflexivity.
Defined.

(** ** The panel *)

Lemma or_zero_not_nan o : is_nan (or_zero o) = false.
Proof.
  destruct o as [x|]; [|reflexivity]. simpl.
  destruct (is_nan x) eqn:Hnan; [reflexivity|]. simpl.
  by destruct (x =? 0)%float.
Qed.

(** X6. The coordinate the panel reads for a stick axis is never [NaN]:
    an axis the device does not report and an axis reporting [NaN] both read
    as 0, and any other reading that is not zero is passed on as it is. A
    device without axes thus has both dots drawn at the centre (50, 50). *)
Theorem axisValue_is_a_number gs a :
  is_nan (axisValue gs a) = false ∧
  (length (axes gs) ≤ AxisIndex_value a → axisValue gs a = 0%float) ∧
  (∀ x, axes gs !! AxisIndex_value a = Some x → is_nan x = true →
        axisValue gs a = 0%float) ∧
  (∀ x, axes gs !! AxisIndex_value a = Some x →
        is_nan x = false → (x =? 0)%float = false → axisValue gs a = x) ∧
  (axes gs = [] →
   JoystickCircle (axisValue gs LX) (axisValue gs LY) = (50%float, 50%float) ∧
   JoystickCircle (axisValue gs RX) (axisValue gs RY) = (50%float, 50%float)).
Proof.
  unfold axisValue. split; [apply or_zero_not_nan|]. split; [|split; [|split]].
  - intros Hshort. by rewrite lookup_ge_None_2.
  - intros x -> Hnan. simpl. by rewrite Hnan.
  - intros x -> Hnan Hzero. simpl. by rewrite Hnan, Hzero.
  - intros ->. split; reflexivity.
Qed.

(** X7. The panel shown after a frame throws a [TypeError] exactly when
    the frame sampled a device reporting fewer than 8 buttons (the LT and
    RT entries are read without a guard); without a device it shows the
    placeholder, and for a device with 8 buttons or more it shows the
    travel of both triggers. *)
Theorem panel_throws_iff_short_device s env :
  let view := renderPanel (gamepadState (step s (AnimationFrame env))) in
  (view = Throw TypeError ↔
   ∃ gp, currentGp s env = Some gp ∧ length (gp_buttons gp) < 8) ∧
  (currentGp s env = None → view = Normal None) ∧
  (∀ gp, currentGp s env = Some gp → 8 ≤ length (gp_buttons gp) →
         ∃ lt rt, gp_buttons gp !! 6 = Some lt ∧ gp_buttons gp !! 7 = Some rt ∧
                  view = Normal (Some {|
                    leftStick := (or_zero (gp_axes gp !! 0), or_zero (gp_axes gp !! 1));
                    rightStick := (or_zero (gp_axes gp !! 2), or_zero (gp_axes gp !! 3));
                    ltTravel := (value lt * 100)%float;
                    rtTravel := (value rt * 100)%float |})).
Proof.
  cbv zeta. unfold step.
  rewrite gamepadState_runEffects, gamepadState_rendered_frame.
  destruct (currentGp s env) as [gp|]; simpl.
  2: { split; [split|split].
       - intros [=].
       - intros (? & [=] & _).
       - done.
       - intros ? [=]. }
  unfold buttonValue, axisValue. simpl. rewrite !list_lookup_fmap.
  destruct (gp_buttons gp !! 6) as [lt|] eqn:Hlt;
    destruct (gp_buttons gp !! 7) as [rt|] eqn:Hrt; simpl.
  - pose proof (lookup_lt_Some _ _ _ Hrt). split; [|split; [done|]].
    + split; [done|]. intros (? & [= <-] & ?). lia.
    + intros ? [= <-] _. exists lt, rt. split; [done|]. split; [done|]. reflexivity.
  - apply lookup_ge_None in Hrt. split; [|split; [done|]].
    + split; [|done]. intros _. exists gp. split; [done | lia].
    + intros ? [= <-] ?. lia.
  - apply lookup_ge_None in Hlt. apply lookup_lt_Some in Hrt. lia.
  - apply lookup_ge_None in Hlt. split; [|split; [done|]].
    + split; [|done]. intros _. exists gp. split; [done | lia].
    + intros ? [= <-] ?. lia.
Qed.

(** ** The time and the label of an entry *)

(** Every reading [getMilliseconds] can give, 0 to 999, checked by
    evaluation. *)
Lemma padded_millis_check :
  forallb (λ n,
    let mmm := padStart 3 "0"%char (nat_to_string n) in
    Nat.eqb (String.length mmm) 3 &&
    bool_decide (Nat.of_uint <$> NilEmpty.uint_of_string mmm = Some n))
    (seq 0 1000) = true.
Proof. vm_compute. reflexivity. Qed.

(** X8. The time of an entry is the locale-formatted time followed by a
    dot and exactly three decimal digits, which read back as the
    millisecond of the clock (one- and two-digit milliseconds are padded
    with zeros on the left). *)
Theorem entry_time_has_three_digit_millis env k i :
  getMilliseconds (now env) < 1000 →
  ∃ mmm,
    log_time (mkEntry env k i) = toLocaleTimeString (now env) +:+ "." +:+ mmm ∧
    String.length mmm = 3 ∧
    Nat.of_uint <$> NilEmpty.uint_of_string mmm = Some (getMilliseconds (now env)).
Proof.
  intros Hms. exists (padStart 3 "0"%char (nat_to_string (getMilliseconds (now env)))).
  split; [done|].
  assert (In (getMilliseconds (now env)) (seq 0 1000)) as Hin
    by (apply List.in_seq; lia).
  pose proof (proj1 (List.forallb_forall _ _) padded_millis_check _ Hin) as Hcheck.
  cbv beta zeta in Hcheck. apply andb_prop in Hcheck as [Hlen Hback].
  split; [by apply Nat.eqb_eq | by apply bool_decide_eq_true in Hback].
Qed.

Lemma entry_time_has_three_digit_millis_witness :
  let env := twoButtons 1016 true false in
  getMilliseconds (now env) < 1000 ∧
  log_time (mkEntry env 0 0) = "12:00:00.016" ∧
  ∃ mmm,
    log_time (mkEntry env 0 0) = toLocaleTimeString (now env) +:+ "." +:+ mmm ∧
    String.length mmm = 3 ∧
    Nat.of_uint <$> NilEmpty.uint_of_string mmm = Some (getMilliseconds (now env)).
Proof.
  cbv zeta.
  assert (getMilliseconds (now (twoButtons 1016 true false)) < 1000) as Hms
    by (vm_compute; lia).
  split; [exact Hms|]. split; [reflexivity|].
  exact (entry_time_has_three_digit_millis (twoButtons 1016 true false) 0 0 Hms).
Defined.

Lemma hasSpace_false_beforeSpace s : hasSpace s = false → beforeSpace s = s.
Proof.
  induction s as [|c s IH]; [done|]. simpl.
  intros [Hc Hs]%orb_false_elim. apply bool_decide_eq_false in Hc.
  rewrite decide_False by done. by rewrite IH.
Qed.

Lemma beforeSpace_app a b :
  beforeSpace (a +:+ b) =
  if hasSpace a then beforeSpace a else a +:+ beforeSpace b.
Proof.
  induction a as [|c a IH]; [done|]. simpl.
  destruct (decide (c = " "%char)) as [Hc | Hc].
  - by rewrite bool_decide_eq_true_2.
  - rewrite bool_decide_eq_false_2 by done. simpl. rewrite IH.
    by destruct (hasSpace a).
Qed.

Lemma hasSpace_app a b : hasSpace (a +:+ b) = hasSpace a || hasSpace b.
Proof.
  induction a as [|c a IH]; [done|]. simpl. by rewrite IH, orb_assoc.
Qed.

Lemma hasSpace_string_of_uint d : hasSpace (NilEmpty.string_of_uint d) = false.
Proof. induction d; simpl; done. Qed.

Lemma hasSpace_padStart n s : hasSpace (padStart n "0"%char s) = hasSpace s.
Proof.
  unfold padStart. induction (n - String.length s) as [|m IH]; [done|].
  simpl. done.
Qed.

(** X9. The time a row of the log shows is the text of the entry's time
    before its first space. When the locale-formatted time has no space
    the row shows the whole time, milliseconds included; when it has one
    (a day-period marker, say) the row shows only what stands before it
    and the milliseconds are not shown. *)
Theorem shown_time_of_entry env k i :
  shownTime (mkEntry env k i) =
  if hasSpace (toLocaleTimeString (now env))
  then beforeSpace (toLocaleTimeString (now env))
  else log_time (mkEntry env k i).
Proof.
  unfold shownTime. simpl. unfold timeString. rewrite beforeSpace_app.
  destruct (hasSpace (toLocaleTimeString (now env))); [done|].
  f_equal. apply hasSpace_false_beforeSpace.
  rewrite hasSpace_app, hasSpace_padStart. unfold nat_to_string.
  by rewrite hasSpace_string_of_uint.
Qed.

Example shown_time :
  let pm := {| getGamepads := []; mathRandom := λ _, "0.5";
               now := {| getTime := 1016; toLocaleTimeString := "3:00:00 PM";
                         getMilliseconds := 16 |} |} in
  shownTime (mkEntry (twoButtons 1016 true false) 0 0) = "12:00:00.016" ∧
  log_time (mkEntry pm 0 0) = "3:00:00 PM.016" ∧
  shownTime (mkEntry pm 0 0) = "3:00:00".
Proof. vm_compute. done. Qed.

(** The labels of the table, checked by evaluation: none starts like a
    fallback label, and no two indices share one. *)
Lemma table_labels_check :
  forallb (λ i,
    negb (String.prefix "Button " (btnName i)) &&
    forallb (λ j, implb (String.eqb (btnName i) (btnName j)) (Nat.eqb i j)) (seq 0 18))
    (seq 0 18) = true.
Proof. vm_compute. reflexivity. Qed.

Lemma prefix_of_fallback s : String.prefix "Button " ("Button " +:+ s) = true.
Proof. simpl. by destruct s. Qed.

Lemma btnName_fallback i : 18 ≤ i → btnName i = "Button " +:+ nat_to_string i.
Proof.
  intros Hi. rewrite btnName_lookup.
  destruct (BUTTON_MAP !! i) as [name|] eqn:Hname; [|done].
  assert (i < 18); [|lia]. apply BUTTON_MAP_domain. by rewrite Hname.
Qed.

Lemma btnName_table i :
  i < 18 →
  String.prefix "Button " (btnName i) = false ∧
  ∀ j, j < 18 → btnName i = btnName j → i = j.
Proof.
  intros Hi.
  assert (In i (seq 0 18)) as Hin by (apply List.in_seq; lia).
  pose proof (proj1 (List.forallb_forall _ _) table_labels_check _ Hin) as Hcheck.
  cbv beta in Hcheck. apply andb_prop in Hcheck as [Hprefix Hdistinct].
  split; [by apply negb_true_iff|].
  intros j Hj Heq.
  assert (In j (seq 0 18)) as Hjn by (apply List.in_seq; lia).
  pose proof (proj1 (List.forallb_forall _ _) Hdistinct _ Hjn) as Hij.
  cbv beta in Hij. rewrite (proj2 (String.eqb_eq _ _) Heq) in Hij.
  by apply Nat.eqb_eq.
Qed.

(** X10. The label identifies the button: two button indices get the same
    label only if they are the same index, be they in the table or not. *)
Theorem btnName_inj i j : btnName i = btnName j ↔ i = j.
Proof.
  split; [|by intros ->].
  destruct (decide (i < 18)) as [Hi|Hi], (decide (j < 18)) as [Hj|Hj].
  - by apply btnName_table.
  - rewrite (btnName_fallback j) by lia. intros Heq.
    destruct (btnName_table i Hi) as [Hprefix _].
    by rewrite Heq, prefix_of_fallback in Hprefix.
  - rewrite (btnName_fallback i) by lia. intros Heq.
    destruct (btnName_table j Hj) as [Hprefix _].
    by rewrite <- Heq, prefix_of_fallback in Hprefix.
  - rewrite (btnName_fallback i), (btnName_fallback j) by lia.
    intros Heq%(inj (String.app "Button ")). unfold nat_to_string in Heq.
    apply (f_equal NilEmpty.uint_of_string) in Heq.
    rewrite !NilEmpty.usu in Heq. injection Heq as Heq.
    by apply DecimalNat.Unsigned.to_uint_inj.
Qed.

(** ** Identifiers under a clock that moves *)

Lemma inputLog_times evs e :
  e ∈ inputLog (run mounted evs) →
  ∃ env k i, e = mkEntry env k i ∧ getTime (now env) ∈ frameTimes evs.
Proof.
  unfold frameTimes.
  induction evs as [|ev evs IH] using rev_ind; [by intros ?%elem_of_nil|].
  rewrite run_snoc, bind_app.
  intros [Hold | (env & -> & Hnew)]%inputLog_step.
  - destruct (IH Hold) as (env & k & i & -> & Hin).
    exists env, k, i. split; [done|]. apply elem_of_app. by left.
  - destruct (newLogs_batch (run mounted evs) env) as (idxs & Hbatch & _ & _).
    rewrite Hbatch in Hnew. apply list_elem_of_lookup in Hnew as [k Hk].
    rewrite list_lookup_imap in Hk.
    destruct (idxs !! k) as [i|]; [|done]. injection Hk as <-.
    exists env, k, i. split; [done|]. apply elem_of_app. right. simpl. by left.
Qed.

Lemma inputLog_step_cases s ev :
  inputLog (step s ev) = [] ∨
  inputLog (step s ev) = inputLog s ∨
  ∃ env, ev = AnimationFrame env ∧
         inputLog (step s ev) = take 50 (newLogs s env ++ inputLog s).
Proof.
  unfold step, runEffects. case_decide; [|by left].
  destruct ev as [env|i|i|].
  - rewrite inputLog_rendered_frame. case_decide; [|by right; left].
    right; right. by exists env.
  - right; left. unfold rendered, dispatch.
    rewrite connected_listeners_updates, with_ref_same. by case_decide.
  - right; left. unfold rendered, dispatch.
    rewrite disconnected_listeners_updates, with_ref_same. by case_decide.
  - by left.
Qed.

Lemma newLogs_ids_NoDup s env : NoDup (log_id <$> newLogs s env).
Proof.
  unfold newLogs. destruct (currentGp s env) as [gp|]; [|constructor].
  rewrite detectEdges_batch. apply batch_ids_NoDup, risingIndices_NoDup.
Qed.

(** X11. When no two frames read the same value off the clock, the
    identifiers of the entries in the log are pairwise distinct after any
    events, whatever the random generator returns: the entries of one
    frame differ in the button index, those of different frames in the
    clock reading. *)
Theorem log_ids_unique_when_clock_moves evs :
  NoDup (frameTimes evs) →
  NoDup (log_id <$> inputLog (run mounted evs)).
Proof.
  induction evs as [|ev evs IH] using rev_ind; [intros _; constructor|].
  unfold frameTimes. rewrite bind_app. fold (frameTimes evs).
  intros (Hbefore & Hfresh & _)%NoDup_app. specialize (IH Hbefore).
  rewrite run_snoc.
  destruct (inputLog_step_cases (run mounted evs) ev)
    as [-> | [-> | (env & -> & ->)]]; [constructor | done |].
  rewrite fmap_take. eapply sublist_NoDup; [|apply sublist_take].
  rewrite fmap_app. apply NoDup_app.
  split; [apply newLogs_ids_NoDup|]. split; [|done].
  intros x (enew & -> & Hnew)%list_elem_of_fmap (eold & Heq & Hold)%list_elem_of_fmap.
  destruct (inputLog_times _ _ Hold) as (env' & k' & i' & -> & Htime).
  destruct (newLogs_batch (run mounted evs) env) as (idxs & Hbatch & _ & _).
  rewrite Hbatch in Hnew. apply list_elem_of_lookup in Hnew as [k Hk].
  rewrite list_lookup_imap in Hk.
  destruct (idxs !! k) as [i|]; [|done]. injection Hk as <-.
  apply log_id_inj in Heq as (Hclock & _ & _).
  apply (Hfresh (getTime (now env'))); [done|].
  rewrite <- Hclock. simpl. by left.
Qed.

Lemma log_ids_unique_when_clock_moves_witness :
  let evs := AnimationFrame <$> twoButtons 1000 false false :: alternating 3 1016 true in
  NoDup (frameTimes evs) ∧
  log_id <$> inputLog (run mounted evs) = ["1048-0-0.5"; "1032-1-0.5"; "1016-0-0.5"] ∧
  NoDup (log_id <$> inputLog (run mounted evs)).
Proof.
  cbv zeta.
  assert (NoDup (frameTimes (AnimationFrame <$>
            twoButtons 1000 false false :: alternating 3 1016 true))) as Hclock
    by (apply (bool_decide_unpack _); vm_compute; exact I).
  split; [exact Hclock|]. split; [reflexivity|].
  exact (log_ids_unique_when_clock_moves _ Hclock).
Defined.
